(** * Uni dashboard: the audio codec, the live voice session and the insight call

    A shallow embedding of [services/geminiService.ts] (base64 helpers,
    [decodeAudioData], [analyzeEducationData]) and of the live-session part of
    [App.tsx] ([toggleLiveReporting] and its callbacks), with the properties
    the specification states about them.

    Conventions.
    - A JavaScript string is the list of its UTF-16 code units ([JSString]).
    - A [Uint8Array] is a [list byte]; an [Int16Array] element is a [Z] in
      [-32768, 32767].
    - A [Float32Array] sample and an [AudioContext] time are rationals.  Every
      sample operation of the code (scaling by [32768], dividing by [32768.0])
      is exact on finite floats, so nothing is lost on samples; times are
      taken as exact. *)

From Stdlib Require Import ZArith NArith QArith Qabs Qround Ascii String List Lia ZifyNat.
From Stdlib.Strings Require Import Byte.
From stdpp Require Import base list gmap.

Local Ltac Zify.zify_post_hook ::= Z.to_euclidean_division_equations.
#[local] Set Warnings "-abstract-large-number".

(** ** JavaScript strings *)

Definition JSString := list N.

(** The code units of a literal. *)
Definition str (s : string) : JSString :=
  map N_of_ascii (list_ascii_of_string s).

(** ** The platform's base64 primitives, [btoa] and [atob] *)

Module Base64.

Local Open Scope N_scope.

Definition alphabet : JSString :=
  str "ABCDEFGHIJKLMNOPQRSTUVWXYZabcdefghijklmnopqrstuvwxyz0123456789+/".

Definition pad_char : N := 61.

(** The character of a 6-bit value. *)
Definition b64_char (i : N) : N := nth (N.to_nat i) alphabet 0.

Fixpoint index_from (k : N) (l : JSString) (c : N) : option N :=
  match l with
  | [] => None
  | x :: l' => if x =? c then Some k else index_from (N.succ k) l' c
  end.

(** The 6-bit value of a character, when it is in the alphabet. *)
Definition b64_index (c : N) : option N := index_from 0 alphabet c.

(** Bytes regrouped six bits at a time; a last group of one or two bytes is
    completed with zero bits. *)
Fixpoint to_sextets (bs : list N) : list N :=
  match bs with
  | [] => []
  | [a] => [a / 4; (a mod 4) * 16]
  | [a; b] => [a / 4; (a mod 4) * 16 + b / 16; (b mod 16) * 4]
  | a :: b :: c :: rest =>
      [a / 4; (a mod 4) * 16 + b / 16; (b mod 16) * 4 + c / 64; c mod 64]
        ++ to_sextets rest
  end.

Definition padding (len : nat) : JSString :=
  match (len mod 3)%nat with
  | 1%nat => [pad_char; pad_char]
  | 2%nat => [pad_char]
  | _ => []
  end.

(** [btoa]: InvalidCharacterError ([None]) on a code unit above 0xFF,
    otherwise the padded base64 text of the string read as bytes. *)
Definition btoa (binary : JSString) : option JSString :=
  if forallb (fun c => c <=? 255) binary
  then Some (map b64_char (to_sextets binary) ++ padding (length binary))
  else None.

Definition is_ascii_whitespace (c : N) : bool :=
  (c =? 9) || (c =? 10) || (c =? 12) || (c =? 13) || (c =? 32).

Definition strip_whitespace (data : JSString) : JSString :=
  List.filter (fun c => negb (is_ascii_whitespace c)) data.

(** When the length is a multiple of four, one or two trailing [=] go. *)
Definition strip_padding (data : JSString) : JSString :=
  if (length data mod 4 =? 0)%nat then
    match rev data with
    | 61 :: 61 :: r => rev r
    | 61 :: r => rev r
    | _ => data
    end
  else data.

Fixpoint sextets_of (data : JSString) : option (list N) :=
  match data with
  | [] => Some []
  | c :: data' =>
      match b64_index c, sextets_of data' with
      | Some i, Some l => Some (i :: l)
      | _, _ => None
      end
  end.

(** Four sextets give three bytes; a last group of two or three sextets
    gives one or two bytes, its spare low bits dropped. *)
Fixpoint of_sextets (ss : list N) : list N :=
  match ss with
  | s1 :: s2 :: s3 :: s4 :: rest =>
      let n := ((s1 * 64 + s2) * 64 + s3) * 64 + s4 in
      [n / 65536; (n / 256) mod 256; n mod 256] ++ of_sextets rest
  | [s1; s2; s3] =>
      let n := (s1 * 64 + s2) * 64 + s3 in
      [n / 1024; (n / 4) mod 256]
  | [s1; s2] =>
      let n := s1 * 64 + s2 in
      [n / 16]
  | _ => []
  end.

(** [atob]: the forgiving base64 decoding of the HTML standard;
    InvalidCharacterError is [None]. *)
Definition atob (data : JSString) : option JSString :=
  let d := strip_padding (strip_whitespace data) in
  if (length d mod 4 =? 1)%nat then None
  else match sextets_of d with
       | Some ss => Some (of_sextets ss)
       | None => None
       end.

End Base64.

(** ** [encode] and [decode] of geminiService.ts *)

(** Storing a number into a [Uint8Array] keeps it modulo 256. *)
Definition to_uint8 (c : N) : byte :=
  match Byte.of_N (c mod 256) with
  | Some b => b
  | None => x00
  end.

(** [decode]: [atob], then one byte per code unit of the binary string. *)
Definition decode (base64 : JSString) : option (list byte) :=
  match Base64.atob base64 with
  | Some binaryString => Some (map to_uint8 binaryString)
  | None => None
  end.

(** [encode]: one code unit per byte ([String.fromCharCode]), then [btoa]. *)
Definition encode (bytes : list byte) : option JSString :=
  let binary := map Byte.to_N bytes in
  Base64.btoa binary.

(** ** Typed arrays: 16-bit samples and their bytes *)

(** The integer part of a number, towards zero. *)
Definition truncate (x : Q) : Z := Z.quot (Qnum x) (Z.pos (Qden x)).

(** [ToInt16], the conversion applied by a store into an [Int16Array]:
    truncate, reduce modulo 2^16, read the result as signed. *)
Definition ToInt16 (x : Q) : Z :=
  let int := truncate x in
  let int16bit := (int mod 65536)%Z in
  if (32768 <=? int16bit)%Z then (int16bit - 65536)%Z else int16bit.

(** The two bytes of an [Int16Array] element in its buffer, low byte first. *)
Definition int16_bytes (k : Z) : list byte :=
  let u := Z.to_N (k mod 65536) in
  [to_uint8 (u mod 256); to_uint8 (u / 256)].

(** [new Uint8Array(int16.buffer)] *)
Definition Uint8Array_of_Int16Array (int16 : list Z) : list byte :=
  flat_map int16_bytes int16.

Definition int16_of_bytes (lo hi : byte) : Z :=
  let u := (Z.of_N (Byte.to_N lo) + 256 * Z.of_N (Byte.to_N hi))%Z in
  if (32768 <=? u)%Z then (u - 65536)%Z else u.

(** [new Int16Array(data.buffer)]: RangeError ([None]) when the byte length
    is odd. *)
Fixpoint Int16Array_of_buffer (data : list byte) : option (list Z) :=
  match data with
  | [] => Some []
  | [_] => None
  | lo :: hi :: rest =>
      match Int16Array_of_buffer rest with
      | Some l => Some (int16_of_bytes lo hi :: l)
      | None => None
      end
  end.

(** ** The capture-side conversion (App.tsx, [onaudioprocess]) *)

(** [for (i < l) int16[i] = inputData[i] * 32768] *)
Definition int16_of_samples (inputData : list Q) : list Z :=
  map (fun s => ToInt16 (s * 32768)%Q) inputData.

(** The bytes handed to [encode]: what the specification calls
    [samplesToPCM16]. *)
Definition samplesToPCM16 (inputData : list Q) : list byte :=
  Uint8Array_of_Int16Array (int16_of_samples inputData).

(** The specification's wording of the same conversion, [round(s * 32768)]:
    the nearest integer, a half going up as with [Math.round]. *)
Definition round_nearest (x : Q) : Z := Qfloor (x + (1 # 2))%Q.

(** ** [decodeAudioData] of geminiService.ts *)

Record AudioBuffer := {
  numberOfChannels : nat;
  buf_length : nat;
  sampleRate : positive;
  channelData : list (list Q)
}.

(** [buffer.duration], in seconds *)
Definition duration (b : AudioBuffer) : Q :=
  Z.of_nat (buf_length b) # sampleRate b.

(** [ctx.createBuffer]: NotSupportedError ([None]) for no channel or no
    frame, otherwise silent channels.  (The upper limits of the arguments
    depend on the browser and are left out.) *)
Definition createBuffer (numChannels frameCount : nat) (rate : positive)
  : option AudioBuffer :=
  if ((numChannels =? 0) || (frameCount =? 0))%nat then None
  else Some {| numberOfChannels := numChannels;
               buf_length := frameCount;
               sampleRate := rate;
               channelData := repeat (repeat 0%Q frameCount) numChannels |}.

(** The inner loop:
    [channelData[i] = dataInt16[i * numChannels + channel] / 32768.0] *)
Definition fill_channel (dataInt16 : list Z) (numChannels frameCount : nat)
    (channel : nat) (data : list Q) : list Q :=
  foldl (fun cd i =>
           <[i := (inject_Z (nth (i * numChannels + channel) dataInt16 0%Z)
                     / 32768)%Q]> cd)
        data (seq 0 frameCount).

(** [frameCount = dataInt16.length / numChannels] is taken as the whole
    quotient: [createBuffer] truncates its length argument, and the stores
    the loop makes at an index past that length are dropped by the typed
    array.  The context argument only serves to call [createBuffer]. *)
Definition decodeAudioData (data : list byte) (rate : positive)
    (numChannels : nat) : option AudioBuffer :=
  match Int16Array_of_buffer data with
  | None => None
  | Some dataInt16 =>
      let frameCount := (length dataInt16 / numChannels)%nat in
      match createBuffer numChannels frameCount rate with
      | None => None
      | Some buffer =>
          Some {| numberOfChannels := numberOfChannels buffer;
                  buf_length := buf_length buffer;
                  sampleRate := sampleRate buffer;
                  channelData :=
                    imap (fill_channel dataInt16 numChannels frameCount)
                         (channelData buffer) |}
      end
  end.

(** ** The live voice session (App.tsx, [toggleLiveReporting]) *)

Inductive Role := user | ai | system.

Record TranscriptEntry := { role : Role; text : JSString }.

(** *** Inbound messages *)

Record Blob := { data : option JSString }.
Record Part := { inlineData : option Blob }.
Record Content := { parts : option (list Part) }.
Record Transcription := { transcription_text : option JSString }.

Record LiveServerContent := {
  modelTurn : option Content;
  outputTranscription : option Transcription;
  inputTranscription : option Transcription
}.

Record LiveServerMessage := { serverContent : option LiveServerContent }.

(** *** Outbound frames *)

Record Media := { media_data : JSString; mimeType : JSString }.

(** *** The component and what it acts on *)

Record AudioContext := { ctx_sampleRate : positive; ctx_closed : bool }.

Inductive SessionStatus := Connecting | Open | Closed.

(** One call of [ai.live.connect]: the two contexts its callbacks close
    over, and the state of the connection. *)
Record LiveSession := {
  ses_inCtx : nat;
  ses_outCtx : nat;
  ses_status : SessionStatus
}.

(** A started [AudioBufferSourceNode]. *)
Record SourceNode := {
  node_ctx : nat;
  node_buffer : AudioBuffer;
  node_start : Q
}.

(** The first six fields are the component's state and refs; the others are
    the objects it creates and the calls it makes, in order.  A context, a
    session and a source node are named by their position in their list. *)
Record State := mkState {
  isLiveActive : bool;
  liveTranscript : list TranscriptEntry;
  audioContextRef : option nat;
  nextStartTimeRef : Q;
  sourcesRef : gset nat;
  inputCtxRef : option nat;
  contexts : list AudioContext;
  sessions : list LiveSession;
  nodes : list SourceNode;
  sent : list (nat * Media);
  alerts : list JSString
}.

(** The component as mounted: [useState(false)], [useState([])],
    [useRef(null)], [useRef(0)], [useRef(new Set())]. *)
Definition initial : State :=
  mkState false [] None 0%Q ∅ None [] [] [] [] [].

Definition set_isLiveActive (v : bool) (s : State) : State :=
  mkState v (liveTranscript s) (audioContextRef s) (nextStartTimeRef s)
    (sourcesRef s) (inputCtxRef s) (contexts s) (sessions s) (nodes s)
    (sent s) (alerts s).

Definition set_liveTranscript (v : list TranscriptEntry) (s : State) : State :=
  mkState (isLiveActive s) v (audioContextRef s) (nextStartTimeRef s)
    (sourcesRef s) (inputCtxRef s) (contexts s) (sessions s) (nodes s)
    (sent s) (alerts s).

Definition set_audioContextRef (v : option nat) (s : State) : State :=
  mkState (isLiveActive s) (liveTranscript s) v (nextStartTimeRef s)
    (sourcesRef s) (inputCtxRef s) (contexts s) (sessions s) (nodes s)
    (sent s) (alerts s).

Definition set_nextStartTimeRef (v : Q) (s : State) : State :=
  mkState (isLiveActive s) (liveTranscript s) (audioContextRef s) v
    (sourcesRef s) (inputCtxRef s) (contexts s) (sessions s) (nodes s)
    (sent s) (alerts s).

Definition set_sourcesRef (v : gset nat) (s : State) : State :=
  mkState (isLiveActive s) (liveTranscript s) (audioContextRef s)
    (nextStartTimeRef s) v (inputCtxRef s) (contexts s) (sessions s)
    (nodes s) (sent s) (alerts s).

Definition set_inputCtxRef (v : option nat) (s : State) : State :=
  mkState (isLiveActive s) (liveTranscript s) (audioContextRef s)
    (nextStartTimeRef s) (sourcesRef s) v (contexts s) (sessions s)
    (nodes s) (sent s) (alerts s).

Definition set_contexts (v : list AudioContext) (s : State) : State :=
  mkState (isLiveActive s) (liveTranscript s) (audioContextRef s)
    (nextStartTimeRef s) (sourcesRef s) (inputCtxRef s) v (sessions s)
    (nodes s) (sent s) (alerts s).

Definition set_sessions (v : list LiveSession) (s : State) : State :=
  mkState (isLiveActive s) (liveTranscript s) (audioContextRef s)
    (nextStartTimeRef s) (sourcesRef s) (inputCtxRef s) (contexts s) v
    (nodes s) (sent s) (alerts s).

Definition set_nodes (v : list SourceNode) (s : State) : State :=
  mkState (isLiveActive s) (liveTranscript s) (audioContextRef s)
    (nextStartTimeRef s) (sourcesRef s) (inputCtxRef s) (contexts s)
    (sessions s) v (sent s) (alerts s).

Definition set_sent (v : list (nat * Media)) (s : State) : State :=
  mkState (isLiveActive s) (liveTranscript s) (audioContextRef s)
    (nextStartTimeRef s) (sourcesRef s) (inputCtxRef s) (contexts s)
    (sessions s) (nodes s) v (alerts s).

Definition set_alerts (v : list JSString) (s : State) : State :=
  mkState (isLiveActive s) (liveTranscript s) (audioContextRef s)
    (nextStartTimeRef s) (sourcesRef s) (inputCtxRef s) (contexts s)
    (sessions s) (nodes s) (sent s) v.

(** [ref.current?.close()] *)
Definition close_context (ref : option nat) (s : State) : State :=
  match ref with
  | None => s
  | Some c =>
      set_contexts
        (alter (fun x => {| ctx_sampleRate := ctx_sampleRate x;
                            ctx_closed := true |}) c (contexts s)) s
  end.

Definition set_status (sid : nat) (v : SessionStatus) (s : State) : State :=
  set_sessions
    (alter (fun x => {| ses_inCtx := ses_inCtx x; ses_outCtx := ses_outCtx x;
                        ses_status := v |}) sid (sessions s)) s.

(** [toggleLiveReporting].  [granted] tells whether [getUserMedia] resolves.
    With [isLiveActive] set, the two contexts are closed and nothing else is
    done.  Otherwise two contexts are made, stored in the refs, and
    [ai.live.connect] is called; a refused microphone ends in the alert. *)
Definition toggleLiveReporting (granted : bool) (s : State) : State :=
  if isLiveActive s then
    let s := set_isLiveActive false s in
    let s := close_context (inputCtxRef s) s in
    close_context (audioContextRef s) s
  else if granted then
    let inCtx := length (contexts s) in
    let outCtx := S inCtx in
    let s := set_contexts
               (contexts s ++ [ {| ctx_sampleRate := 16000; ctx_closed := false |};
                                {| ctx_sampleRate := 24000; ctx_closed := false |} ]) s in
    let s := set_inputCtxRef (Some inCtx) s in
    let s := set_audioContextRef (Some outCtx) s in
    set_sessions
      (sessions s ++ [ {| ses_inCtx := inCtx; ses_outCtx := outCtx;
                          ses_status := Connecting |} ]) s
  else
    set_alerts (alerts s ++ [str "Microphone access failed."]) s.

(** [onopen] of session [sid] *)
Definition onopen (sid : nat) (s : State) : State :=
  let s := set_status sid Open s in
  let s := set_isLiveActive true s in
  set_liveTranscript
    [ {| role := system;
         text := str "Assistant connected. Describe the school situation." |} ] s.

(** [scriptProcessor.onaudioprocess] of session [sid].  [None] is the
    handler throwing (in [btoa]) before the send. *)
Definition onaudioprocess (sid : nat) (inputData : list Q) (s : State)
  : option State :=
  let int16 := int16_of_samples inputData in
  match encode (Uint8Array_of_Int16Array int16) with
  | None => None
  | Some d =>
      let pcmData := {| media_data := d;
                        mimeType := str "audio/pcm;rate=16000" |} in
      Some (set_sent (sent s ++ [(sid, pcmData)]) s)
  end.

(** [message.serverContent?.modelTurn?.parts[0]?.inlineData?.data].
    The outer [None] is the TypeError of indexing absent [parts]. *)
Definition audioData_of (message : LiveServerMessage)
  : option (option JSString) :=
  match serverContent message with
  | None => Some None
  | Some sc =>
      match modelTurn sc with
      | None => Some None
      | Some turn =>
          match parts turn with
          | None => None
          | Some [] => Some None
          | Some (p :: _) =>
              match inlineData p with
              | None => Some None
              | Some b => Some (data b)
              end
          end
      end
  end.

Definition Math_max (a b : Q) : Q := if Qle_bool a b then b else a.

(** Lines 219-226: a source node for [buffer] is started at the later of the
    cursor and [currentTime], the cursor moves to its end, and the node
    joins [sourcesRef]. *)
Definition schedule (outCtx : nat) (buffer : AudioBuffer) (currentTime : Q)
    (s : State) : State :=
  let source := length (nodes s) in
  let s := set_nextStartTimeRef (Math_max (nextStartTimeRef s) currentTime) s in
  let s := set_nodes
             (nodes s ++ [ {| node_ctx := outCtx; node_buffer := buffer;
                              node_start := nextStartTimeRef s |} ]) s in
  let s := set_nextStartTimeRef (nextStartTimeRef s + duration buffer)%Q s in
  set_sourcesRef ({[ source ]} ∪ sourcesRef s) s.

(** The scheduling of the decoded chunks of one session in turn, each with
    the device time at which it is scheduled. *)
Definition schedule_all (outCtx : nat) (chunks : list (AudioBuffer * Q))
    (s : State) : State :=
  foldl (fun s c => schedule outCtx (fst c) (snd c) s) s chunks.

(** [source.onended] *)
Definition onended (source : nat) (s : State) : State :=
  set_sourcesRef (sourcesRef s ∖ {[ source ]}) s.

(** [x?.text || ''] *)
Definition text_or_empty (t : Transcription) : JSString :=
  match transcription_text t with
  | Some x => x
  | None => []
  end.

(** The two transcription blocks of [onmessage]. *)
Definition append_transcriptions (message : LiveServerMessage) (s : State)
  : State :=
  match serverContent message with
  | None => s
  | Some sc =>
      let s := match outputTranscription sc with
               | Some t => set_liveTranscript
                             (liveTranscript s ++ [ {| role := ai; text := text_or_empty t |} ]) s
               | None => s
               end in
      match inputTranscription sc with
      | Some t => set_liveTranscript
                    (liveTranscript s ++ [ {| role := user; text := text_or_empty t |} ]) s
      | None => s
      end
  end.

(** The audio block of [onmessage]; [None] when it throws. *)
Definition play_audio (outCtx : nat) (message : LiveServerMessage)
    (currentTime : Q) (s : State) : option State :=
  match audioData_of message with
  | None => None
  | Some None | Some (Some []) => Some s
  | Some (Some audioData) =>
      match decode audioData with
      | None => None
      | Some bytes =>
          match decodeAudioData bytes 24000 1 with
          | None => None
          | Some buffer => Some (schedule outCtx buffer currentTime s)
          end
      end
  end.

(** [onmessage] of a session whose output context is [outCtx];
    [currentTime] is [outCtx.currentTime] when the buffer is scheduled.
    The handler is an async function: where it throws, its promise is
    rejected and the state stays as it was ([None] in [play_audio] happens
    before any store).  The part after the [await] is taken to run at once. *)
Definition onmessage (outCtx : nat) (message : LiveServerMessage)
    (currentTime : Q) (s : State) : State :=
  match play_audio outCtx message currentTime s with
  | None => s
  | Some s' => append_transcriptions message s'
  end.

(** [onclose] of session [sid] *)
Definition onclose (sid : nat) (s : State) : State :=
  set_isLiveActive false (set_status sid Closed s).

(** [onerror] of session [sid] *)
Definition onerror (sid : nat) (s : State) : State :=
  set_isLiveActive false (set_status sid Closed s).

(** The callbacks as the events of one component, for runs. *)
Inductive Event :=
| Toggle (granted : bool)
| OnOpen (sid : nat)
| AudioProcess (sid : nat) (inputData : list Q)
| OnMessage (sid : nat) (message : LiveServerMessage) (currentTime : Q)
| OnClose (sid : nat)
| OnError (sid : nat)
| OnEnded (source : nat).

Definition step (s : State) (e : Event) : State :=
  match e with
  | Toggle granted => toggleLiveReporting granted s
  | OnOpen sid => onopen sid s
  | AudioProcess sid inputData =>
      match onaudioprocess sid inputData s with
      | Some s' => s'
      | None => s
      end
  | OnMessage sid message currentTime =>
      match sessions s !! sid with
      | Some ses => onmessage (ses_outCtx ses) message currentTime s
      | None => s
      end
  | OnClose sid => onclose sid s
  | OnError sid => onerror sid s
  | OnEnded source => onended source s
  end.

Definition run (s : State) (es : list Event) : State := foldl step s es.

(** The events that are neither the arrival of a message nor the end of a
    source node. *)
Definition changes_no_ref (e : Event) : bool :=
  match e with
  | OnMessage _ _ _ | OnEnded _ => false
  | _ => true
  end.

(** The events that cannot unset [isLiveActive]: all but the button, the
    closing of a session and an error. *)
Definition keeps_flag (e : Event) : bool :=
  match e with
  | Toggle _ | OnClose _ | OnError _ => false
  | _ => true
  end.

(** Inbound messages as events: the session, the message, and the device
    time at which its audio is scheduled. *)
Definition inbound (ms : list (nat * LiveServerMessage * Q)) : list Event :=
  map (fun x => OnMessage (fst (fst x)) (snd (fst x)) (snd x)) ms.

(** The transcript entries a message stands for, going by the kind of
    transcription it carries: the assistant's, then the user's. *)
Definition transcriptions (message : LiveServerMessage)
  : list TranscriptEntry :=
  match serverContent message with
  | None => []
  | Some sc =>
      match outputTranscription sc with
      | Some t => [ {| role := ai; text := text_or_empty t |} ]
      | None => []
      end
      ++ match inputTranscription sc with
         | Some t => [ {| role := user; text := text_or_empty t |} ]
         | None => []
         end
  end.

(** A silent mono buffer at the output rate. *)
Definition silence (frameCount : nat) : AudioBuffer :=
  {| numberOfChannels := 1; buf_length := frameCount; sampleRate := 24000;
     channelData := [repeat 0%Q frameCount] |}.

(** A message with one audio part and, possibly, an output transcription. *)
Definition audio_message (base64 : JSString) (said : option JSString)
  : LiveServerMessage :=
  {| serverContent :=
       Some {| modelTurn :=
                 Some {| parts := Some [ {| inlineData := Some {| data := Some base64 |} |} ] |};
               outputTranscription :=
                 match said with
                 | Some t => Some {| transcription_text := Some t |}
                 | None => None
                 end;
               inputTranscription := None |} |}.

(** ** The platform's [JSON.parse] *)

Module JSON.

Local Open Scope N_scope.

(** A parsed value.  A number keeps its text; an object keeps its members
    as written. *)
#[local] Set Warnings "-register-all".
Inductive value :=
| JNull
| JBool (b : bool)
| JNumber (lexeme : JSString)
| JString (s : JSString)
| JArray (elements : list value)
| JObject (members : list (JSString * value)).

Definition is_ws (c : N) : bool :=
  (c =? 9) || (c =? 10) || (c =? 13) || (c =? 32).

Fixpoint skip_ws (l : JSString) : JSString :=
  match l with
  | c :: l' => if is_ws c then skip_ws l' else l
  | [] => []
  end.

Definition is_digit (c : N) : bool := (48 <=? c) && (c <=? 57).

Fixpoint digits (l : JSString) : JSString * JSString :=
  match l with
  | c :: l' =>
      if is_digit c then let '(ds, r) := digits l' in (c :: ds, r)
      else ([], l)
  | [] => ([], [])
  end.

(** One or more digits. *)
Definition digits1 (l : JSString) : option (JSString * JSString) :=
  match digits l with
  | ([], _) => None
  | p => Some p
  end.

(** [int]: a single [0], or digits that do not start with [0]. *)
Definition int_part (l : JSString) : option (JSString * JSString) :=
  match l with
  | c :: l' =>
      if c =? 48 then Some ([c], l')
      else digits1 l
  | [] => None
  end.

Definition frac_part (l : JSString) : option (JSString * JSString) :=
  match l with
  | c :: l' =>
      if c =? 46 then
        match digits1 l' with
        | Some (ds, r) => Some (c :: ds, r)
        | None => None
        end
      else Some ([], l)
  | [] => Some ([], [])
  end.

Definition exp_part (l : JSString) : option (JSString * JSString) :=
  match l with
  | c :: l' =>
      if (c =? 101) || (c =? 69) then
        let '(sign, l'') :=
          match l' with
          | c' :: t => if (c' =? 43) || (c' =? 45) then ([c'], t) else ([], l')
          | [] => ([], l')
          end in
        match digits1 l'' with
        | Some (ds, r) => Some (c :: sign ++ ds, r)
        | None => None
        end
      else Some ([], l)
  | [] => Some ([], [])
  end.

Definition number (l : JSString) : option (JSString * JSString) :=
  let '(sign, l1) :=
    match l with
    | c :: t => if c =? 45 then ([c], t) else ([], l)
    | [] => ([], l)
    end in
  match int_part l1 with
  | None => None
  | Some (i, l2) =>
      match frac_part l2 with
      | None => None
      | Some (f, l3) =>
          match exp_part l3 with
          | None => None
          | Some (e, l4) => Some (sign ++ i ++ f ++ e, l4)
          end
      end
  end.

Definition hex_digit (c : N) : option N :=
  if is_digit c then Some (c - 48)
  else if (97 <=? c) && (c <=? 102) then Some (c - 87)
  else if (65 <=? c) && (c <=? 70) then Some (c - 55)
  else None.

Definition hex4 (a b c d : N) : option N :=
  match hex_digit a, hex_digit b, hex_digit c, hex_digit d with
  | Some x, Some y, Some z, Some w => Some (((x * 16 + y) * 16 + z) * 16 + w)
  | _, _, _, _ => None
  end.

Definition simple_escape (c : N) : option N :=
  if (c =? 34) || (c =? 92) || (c =? 47) then Some c
  else if c =? 98 then Some 8
  else if c =? 102 then Some 12
  else if c =? 110 then Some 10
  else if c =? 114 then Some 13
  else if c =? 116 then Some 9
  else None.

(** The rest of a string after its opening quote.  [fuel] bounds the
    number of characters read. *)
Fixpoint string_body (fuel : nat) (l : JSString) : option (JSString * JSString) :=
  match fuel with
  | O => None
  | S fuel' =>
      match l with
      | [] => None
      | c :: l' =>
          if c =? 34 then Some ([], l')
          else if c =? 92 then
            match l' with
            | [] => None
            | e :: l'' =>
                if e =? 117 then
                  match l'' with
                  | a :: b :: c' :: d :: r =>
                      match hex4 a b c' d, string_body fuel' r with
                      | Some u, Some (s, r') => Some (u :: s, r')
                      | _, _ => None
                      end
                  | _ => None
                  end
                else
                  match simple_escape e, string_body fuel' l'' with
                  | Some u, Some (s, r') => Some (u :: s, r')
                  | _, _ => None
                  end
            end
          else if c <? 32 then None
          else
            match string_body fuel' l' with
            | Some (s, r') => Some (c :: s, r')
            | None => None
            end
      end
  end.

(** [l] starts with the literal [w]; what follows it. *)
Fixpoint literal (w l : JSString) : option JSString :=
  match w, l with
  | [], _ => Some l
  | x :: w', y :: l' => if x =? y then literal w' l' else None
  | _ :: _, [] => None
  end.

Fixpoint parse_value (fuel : nat) (l : JSString) : option (value * JSString) :=
  match fuel with
  | O => None
  | S fuel' =>
      match skip_ws l with
      | [] => None
      | c :: rest =>
          if c =? 123 then
            match skip_ws rest with
            | c' :: rest' =>
                if c' =? 125 then Some (JObject [], rest')
                else match parse_members fuel' rest with
                     | Some (ms, r) => Some (JObject ms, r)
                     | None => None
                     end
            | [] => None
            end
          else if c =? 91 then
            match skip_ws rest with
            | c' :: rest' =>
                if c' =? 93 then Some (JArray [], rest')
                else match parse_elements fuel' rest with
                     | Some (vs, r) => Some (JArray vs, r)
                     | None => None
                     end
            | [] => None
            end
          else if c =? 34 then
            match string_body (length rest) rest with
            | Some (s, r) => Some (JString s, r)
            | None => None
            end
          else if c =? 116 then
            match literal (str "rue") rest with
            | Some r => Some (JBool true, r)
            | None => None
            end
          else if c =? 102 then
            match literal (str "alse") rest with
            | Some r => Some (JBool false, r)
            | None => None
            end
          else if c =? 110 then
            match literal (str "ull") rest with
            | Some r => Some (JNull, r)
            | None => None
            end
          else
            match number (c :: rest) with
            | Some (n, r) => Some (JNumber n, r)
            | None => None
            end
      end
  end
with parse_elements (fuel : nat) (l : JSString)
  : option (list value * JSString) :=
  match fuel with
  | O => None
  | S fuel' =>
      match parse_value fuel' l with
      | None => None
      | Some (v, r) =>
          match skip_ws r with
          | c :: r' =>
              if c =? 44 then
                match parse_elements fuel' r' with
                | Some (vs, r'') => Some (v :: vs, r'')
                | None => None
                end
              else if c =? 93 then Some ([v], r')
              else None
          | [] => None
          end
      end
  end
with parse_members (fuel : nat) (l : JSString)
  : option (list (JSString * value) * JSString) :=
  match fuel with
  | O => None
  | S fuel' =>
      match skip_ws l with
      | q :: l1 =>
          if q =? 34 then
            match string_body (length l1) l1 with
            | None => None
            | Some (k, l2) =>
                match skip_ws l2 with
                | c :: l3 =>
                    if c =? 58 then
                      match parse_value fuel' l3 with
                      | None => None
                      | Some (v, r) =>
                          match skip_ws r with
                          | c' :: r' =>
                              if c' =? 44 then
                                match parse_members fuel' r' with
                                | Some (ms, r'') => Some ((k, v) :: ms, r'')
                                | None => None
                                end
                              else if c' =? 125 then Some ([(k, v)], r')
                              else None
                          | [] => None
                          end
                      end
                    else None
                | [] => None
                end
            end
          else None
      | [] => None
      end
  end.

(** [JSON.parse]: one value, then only white space; SyntaxError is [None].
    Every call reads at least one character, so twice the length is fuel
    enough. *)
Definition parse (text : JSString) : option value :=
  match parse_value (2 * length text + 2) text with
  | Some (v, r) =>
      match skip_ws r with
      | [] => Some v
      | _ :: _ => None
      end
  | None => None
  end.

End JSON.

(** ** [analyzeEducationData] of geminiService.ts *)

Record SchoolReport := {
  id : JSString;
  schoolName : JSString;
  district : JSString;
  province : JSString;
  issues : JSString;
  timestamp : Z
}.

(** [Array.prototype.join] *)
Fixpoint join (sep : JSString) (l : list JSString) : JSString :=
  match l with
  | [] => []
  | [x] => x
  | x :: l' => x ++ sep ++ join sep l'
  end.

Definition newline : JSString := [10%N].

Definition reportsText (reports : list SchoolReport) : JSString :=
  join (newline ++ str "---" ++ newline)
    (map (fun r => str "School: " ++ schoolName r ++ str ", District: "
                     ++ district r ++ str ", Issues: " ++ issues r) reports).

Definition prompt (reports : list SchoolReport) : JSString :=
  str "Analyze the following school reports from Pakistan and provide a strategic summary."
    ++ newline ++ str "  Reports:"
    ++ newline ++ str "  " ++ reportsText reports
    ++ newline ++ str "  "
    ++ newline ++ str "  Focus on identifying systemic patterns and critical infrastructure gaps.".

(** The value returned by the [catch] block. *)
Definition fallback : JSON.value :=
  JSON.JObject
    [ (str "summary", JSON.JString (str "Strategic analysis unavailable at this moment."));
      (str "priorities", JSON.JArray [JSON.JString (str "Manual review required")]);
      (str "suggestedResources", JSON.JArray [JSON.JString (str "General Support")]) ].

(** How a promise settles. *)
Inductive Settled (A : Type) :=
| Fulfilled (v : A)
| Rejected.
Arguments Fulfilled {A} v.
Arguments Rejected {A}.

(** What [generateStrategicInsight] reads and writes. *)
Record Insights := {
  reports : list SchoolReport;
  insight : option JSON.value;
  isAnalyzing : bool
}.

Section Insight.

(** [ai.models.generateContent] for a prompt: it rejects, or it resolves to
    a response whose [text] is a string or undefined. *)
Variable generateContent : JSString -> Settled (option JSString).

(** [JSON.parse] *)
Variable JSON_parse : JSString -> option JSON.value.

(** [response.text || '{}'] *)
Definition text_or_braces (text : option JSString) : JSString :=
  match text with
  | None | Some [] => str "{}"
  | Some t => t
  end.

(** The request is outside the [try]: its rejection is the function's.
    Inside, the parsed value is returned as it is, whatever its shape;
    only a throwing [JSON.parse] reaches the [catch]. *)
Definition analyzeEducationData (reports : list SchoolReport)
  : Settled JSON.value :=
  match generateContent (prompt reports) with
  | Rejected => Rejected
  | Fulfilled text =>
      match JSON_parse (text_or_braces text) with
      | Some v => Fulfilled v
      | None => Fulfilled fallback
      end
  end.

(** [generateStrategicInsight] of App.tsx *)
Definition generateStrategicInsight (s : Insights) : Insights :=
  match reports s with
  | [] => s
  | _ :: _ =>
      match analyzeEducationData (reports s) with
      | Fulfilled v =>
          {| reports := reports s; insight := Some v; isAnalyzing := false |}
      | Rejected =>
          {| reports := reports s; insight := insight s; isAnalyzing := false |}
      end
  end.

End Insight.

(** ** Invariants of the live session *)

(** When a started node ends. *)
Definition node_end (a : SourceNode) : Q :=
  (node_start a + duration (node_buffer a))%Q.

(** The started nodes follow one another without overlap, and the cursor is
    not before the end of any of them. *)
Definition in_order (s : State) : Prop :=
  (forall n a b,
     nodes s !! n = Some a -> nodes s !! S n = Some b ->
     (node_end a <= node_start b)%Q)
  /\ (forall a, In a (nodes s) -> (node_end a <= nextStartTimeRef s)%Q).

(** Every session has its own two contexts, the input one at 16 kHz and the
    output one at 24 kHz, and the refs name those of the last session. *)
Definition paired (s : State) : Prop :=
  length (contexts s) = (2 * length (sessions s))%nat
  /\ (forall sid ses,
        sessions s !! sid = Some ses ->
        ses_inCtx ses = (2 * sid)%nat /\ ses_outCtx ses = (2 * sid + 1)%nat)
  /\ (forall c ctx,
        contexts s !! c = Some ctx ->
        ctx_sampleRate ctx = if Nat.even c then 16000%positive else 24000%positive)
  /\ match length (sessions s) with
     | O => inputCtxRef s = None /\ audioContextRef s = None
     | S n => inputCtxRef s = Some (2 * n)%nat
              /\ audioContextRef s = Some (2 * n + 1)%nat
     end.

(** ** The login gate and the two forms (App.tsx) *)

Module Feedback.

Record t := {
  id : JSString;
  role : JSString;
  message : JSString;
  timestamp : Z
}.

End Feedback.

Module Forms.

Record LoginForm := { username : JSString; password : JSString }.

Record SchoolForm := {
  name : JSString;
  location : JSString;
  school_issues : JSString
}.

Record FeedbackForm := { form_role : JSString; form_message : JSString }.

(** The state the handlers below read and write. *)
Record State := mkState {
  isAuthenticated : bool;
  loginForm : LoginForm;
  loginError : JSString;
  reports : list SchoolReport;
  feedbacks : list Feedback.t;
  schoolForm : SchoolForm;
  feedbackForm : FeedbackForm;
  isLocating : bool;
  alerts : list JSString
}.

(** The component as mounted. *)
Definition initial : State :=
  mkState false {| username := []; password := [] |} [] [] []
    {| name := []; location := []; school_issues := [] |}
    {| form_role := []; form_message := [] |} false [].

Definition set_isAuthenticated (v : bool) (s : State) : State :=
  mkState v (loginForm s) (loginError s) (reports s) (feedbacks s)
    (schoolForm s) (feedbackForm s) (isLocating s) (alerts s).

Definition set_loginForm (v : LoginForm) (s : State) : State :=
  mkState (isAuthenticated s) v (loginError s) (reports s) (feedbacks s)
    (schoolForm s) (feedbackForm s) (isLocating s) (alerts s).

Definition set_loginError (v : JSString) (s : State) : State :=
  mkState (isAuthenticated s) (loginForm s) v (reports s) (feedbacks s)
    (schoolForm s) (feedbackForm s) (isLocating s) (alerts s).

Definition set_reports (v : list SchoolReport) (s : State) : State :=
  mkState (isAuthenticated s) (loginForm s) (loginError s) v (feedbacks s)
    (schoolForm s) (feedbackForm s) (isLocating s) (alerts s).

Definition set_feedbacks (v : list Feedback.t) (s : State) : State :=
  mkState (isAuthenticated s) (loginForm s) (loginError s) (reports s) v
    (schoolForm s) (feedbackForm s) (isLocating s) (alerts s).

Definition set_schoolForm (v : SchoolForm) (s : State) : State :=
  mkState (isAuthenticated s) (loginForm s) (loginError s) (reports s)
    (feedbacks s) v (feedbackForm s) (isLocating s) (alerts s).

Definition set_feedbackForm (v : FeedbackForm) (s : State) : State :=
  mkState (isAuthenticated s) (loginForm s) (loginError s) (reports s)
    (feedbacks s) (schoolForm s) v (isLocating s) (alerts s).

Definition set_isLocating (v : bool) (s : State) : State :=
  mkState (isAuthenticated s) (loginForm s) (loginError s) (reports s)
    (feedbacks s) (schoolForm s) (feedbackForm s) v (alerts s).

Definition set_alerts (v : list JSString) (s : State) : State :=
  mkState (isAuthenticated s) (loginForm s) (loginError s) (reports s)
    (feedbacks s) (schoolForm s) (feedbackForm s) (isLocating s) v.

(** [a || b] on strings: the empty string is the falsy one. *)
Definition or_else (a b : JSString) : JSString :=
  match a with
  | [] => b
  | _ :: _ => a
  end.

(** [handleLogin] *)
Definition handleLogin (s : State) : State :=
  if decide (username (loginForm s) = str "admin"
             /\ password (loginForm s) = str "password")
  then set_loginError [] (set_isAuthenticated true s)
  else set_loginError
         (str "Invalid credentials. Prototype mode: use admin/password") s.

(** [handleLogout] *)
Definition handleLogout (s : State) : State :=
  set_loginForm {| username := []; password := [] |}
    (set_isAuthenticated false s).

(** [handleSchoolSubmit].  [newId] and [now] are what [Math.random] (as
    text) and [Date.now] give. *)
Definition handleSchoolSubmit (newId : JSString) (now : Z) (s : State)
  : State :=
  match name (schoolForm s), school_issues (schoolForm s) with
  | [], _ | _, [] => s
  | _ :: _, _ :: _ =>
      let newReport :=
        Build_SchoolReport newId (name (schoolForm s))
          (or_else (location (schoolForm s)) (str "Unknown District"))
          (str "Pakistan") (school_issues (schoolForm s)) now in
      set_schoolForm {| name := []; location := []; school_issues := [] |}
        (set_reports (newReport :: reports s) s)
  end.

(** [handleFeedbackSubmit] *)
Definition handleFeedbackSubmit (newId : JSString) (now : Z) (s : State)
  : State :=
  match form_message (feedbackForm s) with
  | [] => s
  | _ :: _ =>
      let newFeedback :=
        {| Feedback.id := newId;
           Feedback.role := or_else (form_role (feedbackForm s))
                              (str "Community Member");
           Feedback.message := form_message (feedbackForm s);
           Feedback.timestamp := now |} in
      set_feedbackForm {| form_role := []; form_message := [] |}
        (set_feedbacks (newFeedback :: feedbacks s) s)
  end.

(** What the user can do, and what the geolocation request answers, if it
    answers at all.  The coordinates come as the texts [toFixed(4)] makes of
    them. *)
Inductive Event :=
| TypeUsername (v : JSString)
| TypePassword (v : JSString)
| SubmitLogin
| SignOut
| TypeSchoolName (v : JSString)
| TypeLocation (v : JSString)
| TypeIssues (v : JSString)
| SubmitSchool (newId : JSString) (now : Z)
| ChooseRole (v : JSString)
| TypeMessage (v : JSString)
| SubmitFeedback (newId : JSString) (now : Z)
| DetectLocation
| Located (latitude longitude : JSString)
| LocationFailed.

(** The login card is all there is to see until [isAuthenticated] is set,
    and it is not shown any more after that: each control exists on one
    side of that test only.  The answers to a geolocation request come
    whatever is shown. *)
Definition shown (s : State) (e : Event) : bool :=
  match e with
  | TypeUsername _ | TypePassword _ | SubmitLogin => negb (isAuthenticated s)
  | Located _ _ | LocationFailed => true
  | DetectLocation => isAuthenticated s && negb (isLocating s)
  | _ => isAuthenticated s
  end.

Definition handle (s : State) (e : Event) : State :=
  match e with
  | TypeUsername v =>
      set_loginForm {| username := v; password := password (loginForm s) |} s
  | TypePassword v =>
      set_loginForm {| username := username (loginForm s); password := v |} s
  | SubmitLogin => handleLogin s
  | SignOut => handleLogout s
  | TypeSchoolName v =>
      set_schoolForm {| name := v; location := location (schoolForm s);
                        school_issues := school_issues (schoolForm s) |} s
  | TypeLocation v =>
      set_schoolForm {| name := name (schoolForm s); location := v;
                        school_issues := school_issues (schoolForm s) |} s
  | TypeIssues v =>
      set_schoolForm {| name := name (schoolForm s);
                        location := location (schoolForm s);
                        school_issues := v |} s
  | SubmitSchool newId now => handleSchoolSubmit newId now s
  | ChooseRole v =>
      set_feedbackForm {| form_role := v;
                          form_message := form_message (feedbackForm s) |} s
  | TypeMessage v =>
      set_feedbackForm {| form_role := form_role (feedbackForm s);
                          form_message := v |} s
  | SubmitFeedback newId now => handleFeedbackSubmit newId now s
  | DetectLocation => set_isLocating true s
  | Located latitude longitude =>
      set_isLocating false
        (set_schoolForm
           {| name := name (schoolForm s);
              location := latitude ++ str ", " ++ longitude;
              school_issues := school_issues (schoolForm s) |} s)
  | LocationFailed =>
      set_isLocating false
        (set_alerts
           (alerts s ++ [str "Location permission denied or unavailable."]) s)
  end.

(** An event on a control that is not shown cannot happen. *)
Definition step (s : State) (e : Event) : State :=
  if shown s e then handle s e else s.

Definition run (s : State) (es : list Event) : State := foldl step s es.

(** Signed in means signed in with the one pair of credentials. *)
Definition signed_in_as_admin (s : State) : Prop :=
  isAuthenticated s = true ->
  loginForm s = {| username := str "admin"; password := str "password" |}
  /\ loginError s = [].

(** A stored report has a name, a district and issues, and is in Pakistan. *)
Definition complete_report (r : SchoolReport) : Prop :=
  schoolName r <> [] /\ district r <> [] /\ issues r <> []
  /\ province r = str "Pakistan".

(** A stored feedback has a role and a message. *)
Definition complete_feedback (f : Feedback.t) : Prop :=
  Feedback.role f <> [] /\ Feedback.message f <> [].

End Forms.

(** * Properties *)

(** ** Base64 *)

Module Base64Facts.
Import Base64.

Local Open Scope N_scope.

(** Lists can be taken three elements at a time. *)
Lemma list_ind3 {A} (P : list A -> Prop) :
  P [] -> (forall a, P [a]) -> (forall a b, P [a; b]) ->
  (forall a b c l, P l -> P (a :: b :: c :: l)) ->
  forall l, P l.
Proof.
  intros H0 H1 H2 H3.
  fix IH 1. intros [|a [|b [|c l]]];
    [apply H0 | apply H1 | apply H2 | apply H3, IH].
Qed.

Lemma small_cases (P : N -> Prop) (n : nat) :
  (forall k, (k < n)%nat -> P (N.of_nat k)) ->
  forall i, i < N.of_nat n -> P i.
Proof.
  intros H i Hi. rewrite <- (N2Nat.id i). apply H. lia.
Qed.

Lemma b64_char_spec i :
  i < 64 ->
  b64_index (b64_char i) = Some i
  /\ b64_char i <> pad_char
  /\ is_ascii_whitespace (b64_char i) = false.
Proof.
  revert i. apply (small_cases _ 64). intros k Hk.
  do 64 (destruct k as [|k]; [vm_compute; repeat split; discriminate|]).
  lia.
Qed.

Lemma to_sextets_bound bs :
  Forall (fun b => b < 256) bs -> Forall (fun s => s < 64) (to_sextets bs).
Proof.
  induction bs as [| a | a b | a b c l IH] using list_ind3; intros H.
  - constructor.
  - inversion_clear H. cbn. repeat constructor; lia.
  - inversion_clear H as [|? ? Ha H']. inversion_clear H'.
    cbn. repeat constructor; lia.
  - inversion_clear H as [|? ? Ha H']. inversion_clear H' as [|? ? Hb H''].
    inversion_clear H'' as [|? ? Hc Hl].
    cbn [to_sextets app]. repeat (constructor; [lia|]). auto.
Qed.

Lemma to_sextets_length bs :
  exists k : nat,
    (length bs = 3 * k /\ length (to_sextets bs) = 4 * k)%nat
    \/ (length bs = 3 * k + 1 /\ length (to_sextets bs) = 4 * k + 2)%nat
    \/ (length bs = 3 * k + 2 /\ length (to_sextets bs) = 4 * k + 3)%nat.
Proof.
  induction bs as [| a | a b | a b c l [k IH]] using list_ind3.
  - exists 0%nat. left. split; reflexivity.
  - exists 0%nat. right; left. split; reflexivity.
  - exists 0%nat. right; right. split; reflexivity.
  - exists (S k). cbn [to_sextets app length]. lia.
Qed.

Lemma of_to_sextets bs :
  Forall (fun b => b < 256) bs -> of_sextets (to_sextets bs) = bs.
Proof.
  induction bs as [| a | a b | a b c l IH] using list_ind3; intros H.
  - reflexivity.
  - inversion_clear H. cbn. f_equal. lia.
  - inversion_clear H as [|? ? Ha H']. inversion_clear H'.
    cbn. f_equal; [lia|]. f_equal. lia.
  - inversion_clear H as [|? ? Ha H']. inversion_clear H' as [|? ? Hb H''].
    inversion_clear H'' as [|? ? Hc Hl].
    cbn [to_sextets app of_sextets]. rewrite (IH Hl).
    f_equal; [lia|]. f_equal; [lia|]. f_equal. lia.
Qed.

Lemma sextets_of_chars ss :
  Forall (fun s => s < 64) ss -> sextets_of (map b64_char ss) = Some ss.
Proof.
  induction 1 as [|s ss Hs _ IH]; [reflexivity|].
  cbn [map sextets_of]. destruct (b64_char_spec s Hs) as [-> _].
  now rewrite IH.
Qed.

Lemma chars_plain ss :
  Forall (fun s => s < 64) ss ->
  Forall (fun c => c <> pad_char /\ is_ascii_whitespace c = false)
         (map b64_char ss).
Proof.
  induction 1 as [|s ss Hs _ IH]; constructor; auto.
  destruct (b64_char_spec s Hs) as (_ & ? & ?). auto.
Qed.

Lemma strip_whitespace_id body (n : nat) :
  Forall (fun c => c <> pad_char /\ is_ascii_whitespace c = false) body ->
  strip_whitespace (body ++ padding n) = body ++ padding n.
Proof.
  intros H. unfold strip_whitespace.
  assert (Hp : Forall (fun c => is_ascii_whitespace c = false) (padding n)).
  { unfold padding. destruct (n mod 3)%nat as [|[|[|?]]]; repeat constructor. }
  assert (Hall : Forall (fun c => is_ascii_whitespace c = false)
                        (body ++ padding n)).
  { apply Forall_app. split; [|exact Hp].
    eapply Forall_impl; [exact H|]. now intros c [_ Hc]. }
  revert Hall. generalize (body ++ padding n). intros l.
  induction 1 as [|c l Hc _ IH]; [reflexivity|].
  cbn [List.filter]. now rewrite Hc, IH.
Qed.

(** The head of a reversed body is one of its characters. *)
Lemma rev_head_plain body c r :
  Forall (fun c => c <> pad_char /\ is_ascii_whitespace c = false) body ->
  rev body = c :: r -> c <> 61.
Proof.
  intros H E.
  assert (Hin : In c (rev body)) by (rewrite E; left; reflexivity).
  apply in_rev in Hin. rewrite List.Forall_forall in H.
  now destruct (H c Hin).
Qed.

Lemma match_not_pad (c : N) (r alt : JSString) :
  c <> 61 ->
  match c :: r with
  | 61 :: 61 :: r' => rev r'
  | 61 :: r' => rev r'
  | _ => alt
  end = alt.
Proof.
  intros Hc.
  destruct c as [|p]; [reflexivity|].
  do 6 (destruct p as [p|p|]; try reflexivity).
  congruence.
Qed.

Lemma strip_padding_encoded bs :
  let body := map b64_char (to_sextets bs) in
  Forall (fun c => c <> pad_char /\ is_ascii_whitespace c = false) body ->
  strip_padding (body ++ padding (length bs)) = body
  /\ (length body mod 4 =? 1)%nat = false.
Proof.
  intros body Hbody.
  assert (Hlen : length body = length (to_sextets bs))
    by (unfold body; now rewrite length_map).
  destruct (to_sextets_length bs) as [k [[Hb Hs]|[[Hb Hs]|[Hb Hs]]]].
  - assert (Hm : (length bs mod 3 = 0)%nat) by lia.
    unfold padding. rewrite Hm, app_nil_r. split.
    + unfold strip_padding.
      replace (length body mod 4 =? 0)%nat with true
        by (symmetry; apply Nat.eqb_eq; lia).
      destruct (rev body) as [|c r] eqn:E; [reflexivity|].
      apply match_not_pad. eapply rev_head_plain; eauto.
    + apply Nat.eqb_neq. lia.
  - assert (Hm : (length bs mod 3 = 1)%nat) by lia.
    unfold padding. rewrite Hm. split.
    + unfold strip_padding.
      replace (length (body ++ [pad_char; pad_char]) mod 4 =? 0)%nat with true
        by (symmetry; apply Nat.eqb_eq; rewrite length_app; cbn [length]; lia).
      rewrite rev_app_distr. cbn. apply rev_involutive.
    + apply Nat.eqb_neq. lia.
  - assert (Hm : (length bs mod 3 = 2)%nat) by lia.
    unfold padding. rewrite Hm. split.
    + unfold strip_padding.
      replace (length (body ++ [pad_char]) mod 4 =? 0)%nat with true
        by (symmetry; apply Nat.eqb_eq; rewrite length_app; cbn [length]; lia).
      rewrite rev_app_distr. cbn [rev app pad_char].
      destruct (rev body) as [|c r] eqn:E.
      * apply (f_equal (@rev N)) in E. rewrite rev_involutive in E.
        now rewrite E.
      * assert (Hc : c <> 61) by (eapply rev_head_plain; eauto).
        transitivity (rev (c :: r)); [|rewrite <- E; apply rev_involutive].
        destruct c as [|p]; [reflexivity|].
        do 6 (destruct p as [p|p|]; try reflexivity).
        congruence.
    + apply Nat.eqb_neq. lia.
Qed.

(** [atob] undoes [btoa] on every string [btoa] accepts. *)
Lemma atob_btoa binary :
  Forall (fun c => c < 256) binary ->
  exists t, btoa binary = Some t /\ atob t = Some binary.
Proof.
  intros H. unfold btoa.
  assert (Hall : forallb (fun c => c <=? 255) binary = true).
  { apply forallb_forall. rewrite List.Forall_forall in H.
    intros c Hc. apply N.leb_le. specialize (H c Hc). lia. }
  rewrite Hall. eexists. split; [reflexivity|].
  pose proof (to_sextets_bound _ H) as Hs.
  pose proof (chars_plain _ Hs) as Hp.
  unfold atob. rewrite strip_whitespace_id by exact Hp.
  destruct (strip_padding_encoded binary Hp) as [-> ->].
  rewrite sextets_of_chars by exact Hs.
  now rewrite of_to_sextets.
Qed.

End Base64Facts.

Lemma to_uint8_to_N (b : byte) : to_uint8 (Byte.to_N b) = b.
Proof.
  unfold to_uint8. pose proof (Byte.to_N_bounded b).
  rewrite N.mod_small by lia. now rewrite Byte.of_to_N.
Qed.

Lemma code_units_of_bytes (b : list byte) :
  Forall (fun c => c < 256)%N (map Byte.to_N b).
Proof.
  apply List.Forall_forall. intros c Hc. apply in_map_iff in Hc.
  destruct Hc as (x & <- & _). pose proof (Byte.to_N_bounded x). lia.
Qed.

Lemma bytes_of_code_units (b : list byte) :
  map to_uint8 (map Byte.to_N b) = b.
Proof.
  rewrite map_map. rewrite <- (map_id b) at 2.
  apply map_ext. intros x. apply to_uint8_to_N.
Qed.

(** C2. For every byte sequence [b], [encode b] returns a text (it never
    throws), and [decode] of that text returns exactly [b]. *)
Theorem encode_decode_roundtrip (b : list byte) :
  exists t, encode b = Some t /\ decode t = Some b.
Proof.
  unfold encode, decode.
  destruct (Base64Facts.atob_btoa (map Byte.to_N b)) as (t & Ht & Hd).
  { apply code_units_of_bytes. }
  exists t. split; [exact Ht|].
  rewrite Hd. f_equal. apply bytes_of_code_units.
Qed.

Example encode_Hello :
  encode ["H"%byte; "e"%byte; "l"%byte; "l"%byte; "o"%byte]
  = Some (str "SGVsbG8=").
Proof. reflexivity. Qed.

Example decode_skips_white_space :
  decode (str " SGVs bG8 ")
  = Some ["H"%byte; "e"%byte; "l"%byte; "l"%byte; "o"%byte].
Proof. reflexivity. Qed.

Example decode_throws :
  decode (str "!") = None /\ decode (str "SGVsbG8==") = None.
Proof. split; reflexivity. Qed.

(** ** PCM16 conversion *)

(** [truncate] rounds towards zero: the result does not exceed the number
    in magnitude, is less than one away from it, and has its sign. *)
Lemma truncate_spec (x : Q) :
  let t := inject_Z (truncate x) in
  (Qabs t <= Qabs x /\ Qabs x < Qabs t + 1 /\ 0 <= t * x)%Q.
Proof.
  destruct x as [n d]. unfold truncate. cbn [Qnum Qden].
  pose proof (Z.quot_rem' n (Z.pos d)) as E.
  set (q := (n ÷ Z.pos d)%Z) in *. set (r := Z.rem n (Z.pos d)) in *.
  assert (Hr : (0 <= n -> 0 <= r < Z.pos d)%Z).
  { intros Hn. apply Z.rem_bound_pos; lia. }
  assert (Hr' : (n <= 0 -> - Z.pos d < r <= 0)%Z).
  { intros Hn. apply Z.rem_bound_pos_neg; lia. }
  unfold Qle, Qlt, Qabs, Qplus, Qmult, inject_Z. cbn [Qnum Qden].
  rewrite ?Z.mul_1_r, ?Pos.mul_1_l, ?Pos.mul_1_r.
  clearbody q r.
  destruct (Z.le_ge_cases 0 n) as [Hn|Hn].
  - specialize (Hr Hn). clear Hr'.
    assert (0 <= q)%Z by nia.
    rewrite (Z.abs_eq n), (Z.abs_eq q) by lia. nia.
  - specialize (Hr' Hn). clear Hr.
    assert (q <= 0)%Z by nia.
    rewrite (Z.abs_neq n), (Z.abs_neq q) by lia. nia.
Qed.

Lemma ToInt16_range x : (-32768 <= ToInt16 x <= 32767)%Z.
Proof. unfold ToInt16. cbv zeta. destruct (Z.leb_spec 32768 (truncate x mod 65536)); lia. Qed.

Lemma ToInt16_wraps x : exists m : Z, ToInt16 x = (truncate x + 65536 * m)%Z.
Proof.
  unfold ToInt16. cbv zeta.
  destruct (Z.leb_spec 32768 (truncate x mod 65536)).
  - exists (- (truncate x / 65536) - 1)%Z. lia.
  - exists (- (truncate x / 65536))%Z. lia.
Qed.

Lemma ToInt16_in_range x :
  (-32768 <= truncate x <= 32767)%Z -> ToInt16 x = truncate x.
Proof.
  intros H. unfold ToInt16. cbv zeta.
  destruct (Z.leb_spec 32768 (truncate x mod 65536)); lia.
Qed.

Lemma to_N_to_uint8 (c : N) : Byte.to_N (to_uint8 c) = (c mod 256)%N.
Proof.
  unfold to_uint8. destruct (Byte.of_N (c mod 256)) as [b|] eqn:E.
  - now apply Byte.to_of_N.
  - apply Byte.of_N_None_iff in E. lia.
Qed.

Lemma int16_of_int16_bytes (k : Z) :
  (-32768 <= k <= 32767)%Z ->
  match int16_bytes k with
  | [lo; hi] => int16_of_bytes lo hi = k
  | _ => False
  end.
Proof.
  intros H. unfold int16_bytes, int16_of_bytes. cbv zeta.
  rewrite !to_N_to_uint8.
  set (u := Z.to_N (k mod 65536)).
  assert (Hu : Z.of_N u = (k mod 65536)%Z) by (unfold u; lia).
  clearbody u.
  destruct (Z.leb_spec 32768
              (Z.of_N ((u mod 256) mod 256) + 256 * Z.of_N ((u / 256) mod 256))); lia.
Qed.

Lemma Int16Array_of_Uint8Array (int16 : list Z) :
  Forall (fun k => -32768 <= k <= 32767)%Z int16 ->
  Int16Array_of_buffer (Uint8Array_of_Int16Array int16) = Some int16.
Proof.
  induction 1 as [|k l Hk _ IH]; [reflexivity|].
  unfold Uint8Array_of_Int16Array in *. cbn [flat_map].
  pose proof (int16_of_int16_bytes k Hk) as E.
  destruct (int16_bytes k) as [|lo [|hi [|? ?]]]; try contradiction.
  cbn [app Int16Array_of_buffer]. now rewrite IH, E.
Qed.

Lemma int16_of_samples_range inputData :
  Forall (fun k => -32768 <= k <= 32767)%Z (int16_of_samples inputData).
Proof.
  unfold int16_of_samples. apply List.Forall_forall. intros k Hk.
  apply in_map_iff in Hk. destruct Hk as (s & <- & _). apply ToInt16_range.
Qed.

(** Reading back the bytes of the capture side gives its 16-bit samples. *)
Lemma Int16Array_of_samplesToPCM16 inputData :
  Int16Array_of_buffer (samplesToPCM16 inputData)
  = Some (int16_of_samples inputData).
Proof. apply Int16Array_of_Uint8Array, int16_of_samples_range. Qed.

Lemma samplesToPCM16_length inputData :
  length (samplesToPCM16 inputData) = (2 * length inputData)%nat.
Proof.
  unfold samplesToPCM16, Uint8Array_of_Int16Array, int16_of_samples.
  induction inputData as [|s l IH]; [reflexivity|].
  cbn [map flat_map]. rewrite length_app, IH. cbn [int16_bytes length]. lia.
Qed.

(** Storing [f i] at every index below [n] of an array of at least [n]
    cells. *)
Lemma foldl_insert_seq {A} (f : nat -> A) (n : nat) (init : list A) :
  (n <= length init)%nat ->
  foldl (fun cd i => <[i := f i]> cd) init (seq 0 n)
  = map f (seq 0 n) ++ drop n init.
Proof.
  induction n as [|n IH]; intros Hn.
  - now rewrite drop_0.
  - rewrite seq_S, foldl_app, map_app. cbn [foldl map Nat.add].
    rewrite IH by lia.
    destruct (drop n init) as [|x rest] eqn:E.
    { apply (f_equal (@length A)) in E. rewrite length_drop in E.
      cbn in E. lia. }
    assert (Hd : drop (S n) init = rest).
    { replace (S n) with (n + 1)%nat by lia.
      rewrite <- drop_drop, E. reflexivity. }
    rewrite Hd.
    rewrite insert_app_r_alt by (rewrite length_map, length_seq; lia).
    rewrite length_map, length_seq, Nat.sub_diag. cbn.
    now rewrite <- app_assoc.
Qed.

Lemma map_nth_seq {A B} (g : A -> B) (d : A) (l : list A) :
  map (fun i => g (nth i l d)) (seq 0 (length l)) = map g l.
Proof.
  induction l as [|a l IH]; [reflexivity|].
  cbn [length seq map nth]. f_equal.
  rewrite <- seq_shift, map_map. exact IH.
Qed.

Lemma fill_channel_mono (d : list Z) :
  fill_channel d 1 (length d) 0 (repeat 0%Q (length d))
  = map (fun k => inject_Z k / 32768)%Q d.
Proof.
  unfold fill_channel.
  rewrite (foldl_insert_seq
             (fun i => (inject_Z (nth (i * 1 + 0) d 0%Z) / 32768)%Q))
    by (rewrite repeat_length; reflexivity).
  rewrite drop_ge by (rewrite repeat_length; reflexivity).
  rewrite app_nil_r.
  rewrite <- (map_nth_seq (fun k => inject_Z k / 32768)%Q 0%Z d).
  apply map_ext. intros i. now rewrite Nat.mul_1_r, Nat.add_0_r.
Qed.

(** With one channel, [decodeAudioData] divides each 16-bit sample by
    [32768]; it throws on no sample at all. *)
Lemma decodeAudioData_mono data rate dataInt16 :
  Int16Array_of_buffer data = Some dataInt16 ->
  dataInt16 <> [] ->
  decodeAudioData data rate 1
  = Some {| numberOfChannels := 1;
            buf_length := length dataInt16;
            sampleRate := rate;
            channelData := [map (fun k => inject_Z k / 32768)%Q dataInt16] |}.
Proof.
  intros E Hne. unfold decodeAudioData. rewrite E, Nat.div_1_r.
  unfold createBuffer.
  replace ((1 =? 0)%nat || (length dataInt16 =? 0)%nat) with false
    by (destruct dataInt16; [congruence | reflexivity]).
  cbn [numberOfChannels buf_length sampleRate channelData].
  change (repeat (repeat 0%Q (length dataInt16)) 1)
    with [repeat 0%Q (length dataInt16)].
  cbn [imap]. now rewrite fill_channel_mono.
Qed.

Lemma decodeAudioData_empty rate numChannels :
  decodeAudioData [] rate numChannels = None.
Proof.
  unfold decodeAudioData, createBuffer. cbn [Int16Array_of_buffer length].
  now rewrite Nat.Div0.div_0_l, orb_true_r.
Qed.

(** A sample of [[-1, 1)] comes back less than [1/32768] away. *)
Lemma sample_close (x : Q) :
  (-1 <= x)%Q -> (x < 1)%Q ->
  (Qabs (inject_Z (ToInt16 (x * 32768)) / 32768 - x) < 1 # 32768)%Q.
Proof.
  intros Hlo Hhi.
  assert (Ht : (-32768 <= truncate (x * 32768) <= 32767)%Z
               /\ (Qabs (inject_Z (truncate (x * 32768)) / 32768 - x) < 1 # 32768)%Q).
  { destruct x as [n d]. unfold truncate, Qle, Qlt in *. cbn in Hlo, Hhi |- *.
    rewrite ?Z.mul_1_r, ?Pos.mul_1_r in *.
    pose proof (Z.quot_rem' (n * 32768) (Z.pos d)) as E.
    set (q := ((n * 32768) ÷ Z.pos d)%Z) in *.
    set (r := Z.rem (n * 32768) (Z.pos d)) in *.
    assert (Hr : (0 <= n -> 0 <= r < Z.pos d)%Z).
    { intros Hn. apply Z.rem_bound_pos; lia. }
    assert (Hr' : (n <= 0 -> - Z.pos d < r <= 0)%Z).
    { intros Hn. apply Z.rem_bound_pos_neg; lia. }
    clearbody q r.
    rewrite Pos2Z.inj_mul. change (Z.pos (1 * 32768)) with 32768%Z.
    destruct (Z.le_ge_cases 0 n) as [Hn|Hn].
    - specialize (Hr Hn). split; [nia | lia].
    - specialize (Hr' Hn). split; [nia | lia]. }
  destruct Ht as [Hr Hc]. now rewrite ToInt16_in_range.
Qed.

(** C3, as stated, fails at the sample [1.0]: it is stored as [-32768] and
    comes back as [-1.0], two away from where it started. *)
Lemma pcm16_roundtrip_fails_at_one :
  decodeAudioData (samplesToPCM16 [1%Q]) 24000 1
  = Some {| numberOfChannels := 1; buf_length := 1; sampleRate := 24000;
            channelData := [[(-32768 # 32768)%Q]] |}
  /\ ~ (Qabs ((-32768 # 32768) - 1) <= 1 # 32768)%Q.
Proof.
  split; [vm_compute; reflexivity|].
  intros H. vm_compute in H. apply H. reflexivity.
Qed.

(** C3 (amended). For every non-empty array of samples with each value in
    [[-1, 1)], converting to PCM16 bytes and back through [decodeAudioData]
    with one channel yields one channel of as many samples, each less than
    [1/32768] away from the original. *)
Theorem pcm16_roundtrip_close (s : list Q) (rate : positive) :
  s <> [] ->
  Forall (fun x => -1 <= x /\ x < 1)%Q s ->
  exists out,
    decodeAudioData (samplesToPCM16 s) rate 1
    = Some {| numberOfChannels := 1; buf_length := length s;
              sampleRate := rate; channelData := [out] |}
    /\ Forall2 (fun x y => Qabs (y - x) < 1 # 32768)%Q s out.
Proof.
  intros Hne Hs.
  exists (map (fun k => inject_Z k / 32768)%Q (int16_of_samples s)). split.
  - rewrite (decodeAudioData_mono _ _ (int16_of_samples s)).
    + unfold int16_of_samples at 1. now rewrite length_map.
    + apply Int16Array_of_samplesToPCM16.
    + unfold int16_of_samples. destruct s; [congruence | discriminate].
  - unfold int16_of_samples. clear Hne.
    induction Hs as [|x l [Hlo Hhi] _ IH]; constructor; [|exact IH].
    now apply sample_close.
Qed.

Lemma pcm16_roundtrip_close_witness :
  exists out,
    decodeAudioData (samplesToPCM16 [(1 # 2)%Q; (-1)%Q; (32767 # 32768)%Q]) 24000 1
    = Some {| numberOfChannels := 1; buf_length := 3;
              sampleRate := 24000; channelData := [out] |}
    /\ Forall2 (fun x y => Qabs (y - x) < 1 # 32768)%Q
         [(1 # 2)%Q; (-1)%Q; (32767 # 32768)%Q] out.
Proof.
  apply (pcm16_roundtrip_close [(1 # 2)%Q; (-1)%Q; (32767 # 32768)%Q] 24000).
  - discriminate.
  - repeat constructor; vm_compute; congruence.
Defined.

(** C4, as stated, fails at the sample [3/131072]: scaled it is [0.75],
    which rounds to [1], and the code stores [0]. *)
Lemma int16_of_samples_is_not_round :
  int16_of_samples [(3 # 131072)%Q]
  <> [round_nearest ((3 # 131072) * 32768)%Q].
Proof. vm_compute. discriminate. Qed.

(** C4 (amended). The capture side stores, for each sample [s], the number
    [s * 32768] rounded towards zero (not to the nearest integer) and reduced
    modulo [2^16] into [-32768 .. 32767]: there is no clamping, a scaled
    value out of range wraps around.  The bytes are those 16-bit numbers. *)
Theorem samplesToPCM16_truncates_and_wraps (inputData : list Q) :
  exists int16,
    Int16Array_of_buffer (samplesToPCM16 inputData) = Some int16
    /\ Forall2
         (fun s k =>
            exists t m : Z,
              (Qabs (inject_Z t) <= Qabs (s * 32768)
               /\ Qabs (s * 32768) < Qabs (inject_Z t) + 1
               /\ 0 <= inject_Z t * (s * 32768))%Q
              /\ k = (t + 65536 * m)%Z
              /\ (-32768 <= k <= 32767)%Z)
         inputData int16.
Proof.
  exists (int16_of_samples inputData). split.
  - apply Int16Array_of_samplesToPCM16.
  - unfold int16_of_samples.
    induction inputData as [|s l IH]; constructor; [|exact IH].
    destruct (ToInt16_wraps (s * 32768)) as [m Hm].
    exists (truncate (s * 32768)), m. split; [|split].
    + apply truncate_spec.
    + exact Hm.
    + apply ToInt16_range.
Qed.

(** Without clamping: full scale and beyond wrap around. *)
Example int16_of_samples_wraps :
  int16_of_samples [1%Q; (3 # 2)%Q; 2%Q; (-3 # 2)%Q]
  = [(-32768)%Z; (-16384)%Z; 0%Z; 16384%Z].
Proof. reflexivity. Qed.

(** ** The playback scheduler *)

Section Scheduler.

Variable outCtx : nat.

Lemma Math_max_l a b : (a <= Math_max a b)%Q.
Proof.
  unfold Math_max. destruct (Qle_bool a b) eqn:E.
  - now apply Qle_bool_iff.
  - apply Qle_refl.
Qed.

Lemma Math_max_r a b : (b <= Math_max a b)%Q.
Proof.
  unfold Math_max. destruct (Qle_bool a b) eqn:E.
  - apply Qle_refl.
  - apply Qlt_le_weak, Qnot_le_lt. intros H.
    apply Qle_bool_iff in H. congruence.
Qed.

Lemma duration_nonneg b : (0 <= duration b)%Q.
Proof. unfold duration, Qle. cbn. lia. Qed.

Lemma schedule_cursor buffer now s :
  nextStartTimeRef (schedule outCtx buffer now s)
  = (Math_max (nextStartTimeRef s) now + duration buffer)%Q.
Proof. reflexivity. Qed.

Lemma schedule_nodes buffer now s :
  nodes (schedule outCtx buffer now s)
  = nodes s ++ [ {| node_ctx := outCtx; node_buffer := buffer;
                    node_start := Math_max (nextStartTimeRef s) now |} ].
Proof. reflexivity. Qed.

Lemma schedule_cursor_mono buffer now s :
  (nextStartTimeRef s <= nextStartTimeRef (schedule outCtx buffer now s))%Q.
Proof.
  rewrite schedule_cursor.
  apply Qle_trans with (Math_max (nextStartTimeRef s) now);
    [apply Math_max_l|].
  rewrite <- (Qplus_0_r (Math_max _ _)) at 1.
  apply Qplus_le_r, duration_nonneg.
Qed.

Lemma schedule_all_snoc chunks buffer now s :
  schedule_all outCtx (chunks ++ [(buffer, now)]) s
  = schedule outCtx buffer now (schedule_all outCtx chunks s).
Proof. unfold schedule_all. now rewrite foldl_app. Qed.

Lemma schedule_all_cursor_mono chunks s :
  (nextStartTimeRef s <= nextStartTimeRef (schedule_all outCtx chunks s))%Q.
Proof.
  induction chunks as [|[b t] cs IH] using rev_ind.
  - apply Qle_refl.
  - rewrite schedule_all_snoc.
    eapply Qle_trans; [exact IH | apply schedule_cursor_mono].
Qed.

(** The nodes started by a run, one per chunk and in the order of the
    chunks, each at the later of the cursor it found and its device time. *)
Lemma schedule_all_nodes chunks s :
  exists started,
    nodes (schedule_all outCtx chunks s) = nodes s ++ started
    /\ length started = length chunks
    /\ forall n buffer now,
         chunks !! n = Some (buffer, now) ->
         started !! n
         = Some {| node_ctx := outCtx; node_buffer := buffer;
                   node_start :=
                     Math_max (nextStartTimeRef
                                 (schedule_all outCtx (take n chunks) s)) now |}.
Proof.
  induction chunks as [|[b t] cs (started & Hn & Hl & Hs)] using rev_ind.
  - exists []. split; [now rewrite app_nil_r|]. split; [reflexivity|].
    intros n buffer now H. now rewrite lookup_nil in H.
  - eexists (started ++ [_]). rewrite schedule_all_snoc, schedule_nodes, Hn.
    split; [now rewrite app_assoc|].
    split; [rewrite !length_app; cbn; lia|].
    intros n buffer now H.
    destruct (Nat.lt_ge_cases n (length cs)) as [Hlt|Hge].
    + rewrite lookup_app_l in H by exact Hlt.
      rewrite lookup_app_l by lia.
      rewrite take_app_le by lia. now apply Hs.
    + assert (n = length cs) as ->.
      { apply lookup_lt_Some in H. rewrite length_app in H. cbn in H. lia. }
      rewrite list_lookup_middle in H by reflexivity.
      injection H as -> ->.
      rewrite list_lookup_middle by (now symmetry).
      now rewrite take_app_length.
Qed.

End Scheduler.

(** C1. Whatever chunks one session decodes and whenever it schedules them:
    the n-th chunk is started at the later of the cursor and the device
    time, and the cursor is then its start plus its duration; hence no chunk
    starts before the device time, a chunk starts no earlier than the end of
    the one before, and the cursor never decreases. *)
Theorem playback_schedule (outCtx : nat) (chunks : list (AudioBuffer * Q))
    (s : State) :
  exists started,
    nodes (schedule_all outCtx chunks s) = nodes s ++ started
    /\ length started = length chunks
    /\ (forall n buffer now,
          chunks !! n = Some (buffer, now) ->
          let before := schedule_all outCtx (take n chunks) s in
          let after := schedule_all outCtx (take (S n) chunks) s in
          let startTime := Math_max (nextStartTimeRef before) now in
          started !! n = Some {| node_ctx := outCtx; node_buffer := buffer;
                                 node_start := startTime |}
          /\ nextStartTimeRef after = (startTime + duration buffer)%Q
          /\ (now <= startTime)%Q
          /\ (nextStartTimeRef before <= nextStartTimeRef after)%Q)
    /\ (forall n a b,
          started !! n = Some a -> started !! (S n) = Some b ->
          (node_start a + duration (node_buffer a) <= node_start b)%Q)
    /\ (nextStartTimeRef s
        <= nextStartTimeRef (schedule_all outCtx chunks s))%Q.
Proof.
  destruct (schedule_all_nodes outCtx chunks s) as (started & Hn & Hl & Hs).
  assert (Hstep : forall n buffer now,
             chunks !! n = Some (buffer, now) ->
             schedule_all outCtx (take (S n) chunks) s
             = schedule outCtx buffer now
                 (schedule_all outCtx (take n chunks) s)).
  { intros n buffer now H.
    rewrite (take_S_r _ _ _ H). apply schedule_all_snoc. }
  exists started. split; [exact Hn|]. split; [exact Hl|].
  split; [|split].
  - intros n buffer now H. cbv zeta. rewrite (Hstep _ _ _ H).
    split; [now apply Hs|]. split; [apply schedule_cursor|].
    split; [apply Math_max_r | apply schedule_cursor_mono].
  - intros n a b Ha Hb.
    assert (Hlt : (S n < length chunks)%nat)
      by (rewrite <- Hl; eapply lookup_lt_Some; eauto).
    destruct (lookup_lt_is_Some_2 chunks n) as [[b1 t1] H1]; [lia|].
    destruct (lookup_lt_is_Some_2 chunks (S n)) as [[b2 t2] H2]; [lia|].
    rewrite (Hs _ _ _ H1) in Ha. rewrite (Hs _ _ _ H2) in Hb.
    injection Ha as <-. injection Hb as <-. cbn [node_start node_buffer].
    rewrite (Hstep _ _ _ H1), schedule_cursor. apply Math_max_l.
  - apply schedule_all_cursor_mono.
Qed.

Lemma playback_schedule_witness :
  let chunks := [(silence 12000, 0%Q); (silence 7200, (1 # 10)%Q);
                 (silence 16800, 2%Q)] in
  exists a b,
    nodes (schedule_all 1 chunks initial) !! 0%nat = Some a
    /\ nodes (schedule_all 1 chunks initial) !! 1%nat = Some b
    /\ (node_start a + duration (node_buffer a) <= node_start b)%Q
    /\ (0 <= node_start a)%Q.
Proof.
  intros chunks.
  destruct (playback_schedule 1 chunks initial)
    as (started & Hn & _ & Hs & Hc & _).
  destruct (Hs 0%nat (silence 12000) 0%Q eq_refl) as (H0 & _ & Hd & _).
  destruct (Hs 1%nat (silence 7200) (1 # 10)%Q eq_refl) as (H1 & _).
  eexists _, _. rewrite Hn. cbn [nodes initial app].
  split; [exact H0|]. split; [exact H1|].
  split; [exact (Hc 0%nat _ _ H0 H1) | exact Hd].
Defined.

(** ** The capture callback *)



(** ** One session at a time *)

Lemma close_context_sessions ref s :
  sessions (close_context ref s) = sessions s.
Proof. now destruct ref. Qed.

Lemma close_context_contexts_length ref s :
  length (contexts (close_context ref s)) = length (contexts s).
Proof. destruct ref; [apply length_alter | reflexivity]. Qed.

Lemma close_context_refs ref s :
  nextStartTimeRef (close_context ref s) = nextStartTimeRef s
  /\ sourcesRef (close_context ref s) = sourcesRef s
  /\ liveTranscript (close_context ref s) = liveTranscript s
  /\ isLiveActive (close_context ref s) = isLiveActive s.
Proof. now destruct ref. Qed.

Lemma onmessage_isLiveActive outCtx message now s :
  isLiveActive (onmessage outCtx message now s) = isLiveActive s.
Proof.
  assert (Ha : forall s0, isLiveActive (append_transcriptions message s0)
                          = isLiveActive s0).
  { intros s0. unfold append_transcriptions.
    destruct (serverContent message) as [sc|]; [|reflexivity].
    now destruct (outputTranscription sc), (inputTranscription sc). }
  unfold onmessage, play_audio.
  destruct (audioData_of message) as [[[|c d]|]|]; rewrite ?Ha; try reflexivity.
  destruct (decode (c :: d)) as [bytes|]; [|reflexivity].
  destruct (decodeAudioData bytes 24000 1); [|reflexivity].
  now rewrite Ha.
Qed.

Lemma step_keeps_flag s e :
  keeps_flag e = true -> isLiveActive s = true -> isLiveActive (step s e) = true.
Proof.
  destruct e as [g|sid|sid inp|sid m t|sid|sid|src]; cbn [keeps_flag step];
    intros He Hs; try discriminate; try reflexivity; try exact Hs.
  - unfold onaudioprocess. now destruct (encode _).
  - destruct (sessions s !! sid); [|exact Hs].
    now rewrite onmessage_isLiveActive.
Qed.

Lemma run_keeps_flag es s :
  forallb keeps_flag es = true -> isLiveActive s = true ->
  isLiveActive (run s es) = true.
Proof.
  revert s. induction es as [|e es IH]; intros s He Hs; [exact Hs|].
  cbn [forallb] in He. apply andb_prop in He. destruct He as [He Hes].
  change (run s (e :: es)) with (run (step s e) es).
  apply IH; [exact Hes | now apply step_keeps_flag].
Qed.

Lemma stop_allocates_nothing granted s :
  isLiveActive s = true ->
  sessions (toggleLiveReporting granted s) = sessions s
  /\ length (contexts (toggleLiveReporting granted s)) = length (contexts s)
  /\ isLiveActive (toggleLiveReporting granted s) = false.
Proof.
  intros H. unfold toggleLiveReporting. rewrite H.
  rewrite !close_context_sessions, !close_context_contexts_length.
  repeat split.
  cbv zeta. now rewrite !(proj2 (proj2 (proj2 (close_context_refs _ _)))).
Qed.

(** C6, as stated, fails in both of the states it names.  While the session
    is connecting, [isLiveActive] is still unset, and a second start request
    makes a second session and a second pair of contexts.  And a stop
    request unsets the flag without closing the session: the session stays
    open, and the start request that follows does the same. *)
Lemma second_start_while_connecting_or_open :
  let s1 := run initial [Toggle true] in
  let s2 := run initial [Toggle true; OnOpen 0; Toggle true] in
  (map ses_status (sessions s1) = [Connecting]
   /\ map ses_status (sessions (toggleLiveReporting true s1))
      = [Connecting; Connecting]
   /\ length (contexts s1) = 2%nat
   /\ length (contexts (toggleLiveReporting true s1)) = 4%nat)
  /\ (map ses_status (sessions s2) = [Open]
      /\ map ses_status (sessions (toggleLiveReporting true s2))
         = [Open; Connecting]
      /\ length (contexts s2) = 2%nat
      /\ length (contexts (toggleLiveReporting true s2)) = 4%nat).
Proof. repeat split. Qed.

(** C6 (amended). A request makes a session and its two audio contexts
    exactly when [isLiveActive] is unset and the microphone is granted; made
    with the flag set, it is taken as the stop request and makes nothing.
    The flag is the only guard, read by the button's handler: it is set by
    the opening of a session and stays set until a stop request, a close or
    an error, so from the opening of a session until the first of these no
    request makes a second one.  It does not follow the state of the
    session, which is connecting, or open after a stop request, with the
    flag unset. *)
Theorem toggle_allocates_iff_inactive (granted : bool) (s : State)
    (sid : nat) (es : list Event) :
  let made := if isLiveActive s then 0%nat
              else if granted then 1%nat else 0%nat in
  (length (sessions (toggleLiveReporting granted s))
   = (length (sessions s) + made)%nat
   /\ length (contexts (toggleLiveReporting granted s))
      = (length (contexts s) + 2 * made)%nat)
  /\ (isLiveActive s = true ->
      sessions (toggleLiveReporting granted s) = sessions s
      /\ isLiveActive (toggleLiveReporting granted s) = false)
  /\ (forallb keeps_flag es = true ->
      let s1 := run (onopen sid s) es in
      isLiveActive s1 = true
      /\ sessions (toggleLiveReporting granted s1) = sessions s1
      /\ length (contexts (toggleLiveReporting granted s1))
         = length (contexts s1)).
Proof.
  cbv zeta. split; [|split].
  - destruct (isLiveActive s) eqn:Ea.
    + destruct (stop_allocates_nothing granted s Ea) as (-> & -> & _). lia.
    + unfold toggleLiveReporting. rewrite Ea. destruct granted.
      * cbv zeta. cbn [sessions contexts set_sessions set_contexts
                         set_inputCtxRef set_audioContextRef].
        rewrite !length_app. cbn [length]. lia.
      * cbn [sessions contexts set_alerts]. lia.
  - intros Ea. destruct (stop_allocates_nothing granted s Ea) as (H1 & _ & H3).
    now split.
  - intros He.
    assert (Hs1 : isLiveActive (run (onopen sid s) es) = true)
      by (apply run_keeps_flag; [exact He | reflexivity]).
    destruct (stop_allocates_nothing granted _ Hs1) as (H1 & H2 & _).
    now repeat split.
Qed.

Lemma toggle_allocates_iff_inactive_witness :
  let s := run initial [Toggle true] in
  let heard := {| serverContent :=
                    Some {| modelTurn := None;
                            outputTranscription :=
                              Some {| transcription_text := Some (str "Noted.") |};
                            inputTranscription := None |} |} in
  let s1 := run (onopen 0 s) [AudioProcess 0 [0%Q]; OnMessage 0 heard 0%Q] in
  isLiveActive s1 = true
  /\ sessions (toggleLiveReporting true s1) = sessions s1
  /\ length (contexts (toggleLiveReporting true s1)) = length (contexts s1).
Proof.
  intros s heard s1.
  destruct (toggle_allocates_iff_inactive true s 0
              [AudioProcess 0 [0%Q]; OnMessage 0 heard 0%Q]) as (_ & _ & H).
  apply H. reflexivity.
Defined.

(** ** The transcript *)

Lemma append_transcriptions_transcript message s :
  liveTranscript (append_transcriptions message s)
  = liveTranscript s ++ transcriptions message.
Proof.
  unfold append_transcriptions, transcriptions.
  destruct (serverContent message) as [sc|]; [|now rewrite app_nil_r].
  destruct (outputTranscription sc), (inputTranscription sc); cbn;
    now rewrite ?app_nil_r, <- ?app_assoc.
Qed.

Lemma play_audio_transcript outCtx message now s s' :
  play_audio outCtx message now s = Some s' ->
  liveTranscript s' = liveTranscript s.
Proof.
  unfold play_audio. intros H.
  destruct (audioData_of message) as [[[|c l]|]|]; try congruence.
  destruct (decode (c :: l)); [|discriminate].
  destruct (decodeAudioData l0 24000 1); [|discriminate].
  now injection H as <-.
Qed.

Lemma onmessage_prefix outCtx message now s :
  liveTranscript s `prefix_of` liveTranscript (onmessage outCtx message now s).
Proof.
  unfold onmessage.
  destruct (play_audio outCtx message now s) as [s'|] eqn:E; [|reflexivity].
  rewrite append_transcriptions_transcript, (play_audio_transcript _ _ _ _ _ E).
  now apply prefix_app_r.
Qed.

Lemma run_inbound_prefix ms s :
  liveTranscript s `prefix_of` liveTranscript (run s (inbound ms)).
Proof.
  revert s. induction ms as [|[[sid m] t] ms IH]; intros s; [reflexivity|].
  cbn [inbound map run foldl fst snd].
  etransitivity; [|apply IH].
  cbn [step]. destruct (sessions s !! sid); [apply onmessage_prefix | reflexivity].
Qed.

(** C8, as stated, fails on a message that carries an output transcription
    together with audio that does not decode: the handler throws in
    [decode], before the transcription blocks, and nothing is appended. *)
Lemma transcription_lost_with_bad_audio :
  let s := run initial [Toggle true; OnOpen 0] in
  let m := audio_message (str "!") (Some (str "hello")) in
  transcriptions m = [ {| role := ai; text := str "hello" |} ]
  /\ liveTranscript (run s (inbound [(0%nat, m, 0%Q)])) = liveTranscript s.
Proof. split; vm_compute; reflexivity. Qed.

(** C8 (amended). Over any sequence of inbound messages, of any sessions,
    the transcript only grows at its end: what was there stays, in place.
    A message whose handler is not stopped by its audio part appends one
    ['ai'] entry if it carries an output transcription and then one ['user']
    entry if it carries an input transcription, the role coming from the
    kind of transcription alone. *)
Theorem transcript_append_only (s : State)
    (ms : list (nat * LiveServerMessage * Q)) :
  liveTranscript s `prefix_of` liveTranscript (run s (inbound ms))
  /\ (length (liveTranscript s)
      <= length (liveTranscript (run s (inbound ms))))%nat
  /\ (forall i e, liveTranscript s !! i = Some e ->
                  liveTranscript (run s (inbound ms)) !! i = Some e)
  /\ (forall outCtx message now s0,
        play_audio outCtx message now s0 <> None ->
        liveTranscript (onmessage outCtx message now s0)
        = liveTranscript s0 ++ transcriptions message).
Proof.
  pose proof (run_inbound_prefix ms s) as Hp.
  split; [exact Hp|]. split; [now apply prefix_length|].
  split; [intros i e H; eapply prefix_lookup_Some; eauto|].
  intros outCtx message now s0 H. unfold onmessage.
  destruct (play_audio outCtx message now s0) as [s'|] eqn:E; [|congruence].
  now rewrite append_transcriptions_transcript,
    (play_audio_transcript _ _ _ _ _ E).
Qed.

Lemma transcript_append_only_witness :
  let s := run initial [Toggle true; OnOpen 0] in
  let m := audio_message (str "AAA=") (Some (str "hello")) in
  liveTranscript (onmessage 1 m 0 s)
  = liveTranscript s ++ [ {| role := ai; text := str "hello" |} ].
Proof.
  intros s m.
  destruct (transcript_append_only s []) as (_ & _ & _ & H).
  apply (H 1%nat m 0%Q s). vm_compute. discriminate.
Defined.

(** ** The scheduler's refs across sessions *)

Lemma step_keeps_refs s e :
  changes_no_ref e = true ->
  nextStartTimeRef (step s e) = nextStartTimeRef s
  /\ sourcesRef (step s e) = sourcesRef s.
Proof.
  destruct e as [g|sid|sid inp|sid m t|sid|sid|src]; cbn [changes_no_ref step];
    intros H; try discriminate; try (split; reflexivity).
  - unfold toggleLiveReporting. destruct (isLiveActive s).
    + cbv zeta.
      destruct (close_context_refs
                  (audioContextRef
                     (close_context (inputCtxRef (set_isLiveActive false s))
                        (set_isLiveActive false s)))
                  (close_context (inputCtxRef (set_isLiveActive false s))
                     (set_isLiveActive false s))) as (-> & -> & _).
      destruct (close_context_refs (inputCtxRef (set_isLiveActive false s))
                  (set_isLiveActive false s)) as (-> & -> & _).
      split; reflexivity.
    + destruct g; split; reflexivity.
  - unfold onaudioprocess.
    destruct (encode _); split; reflexivity.
Qed.

(** C9, as stated, fails: after one chunk of one frame in a first session,
    a stop and a new start, the second session opens with the cursor at the
    end of that chunk and the chunk's node still in the set. *)
Lemma refs_survive_restart :
  let s := run initial
             [Toggle true; OnOpen 0; OnMessage 0 (audio_message (str "AAA=") None) 0%Q;
              Toggle true; Toggle true; OnOpen 1] in
  map ses_status (sessions s) = [Open; Open]
  /\ audioContextRef s = Some 3%nat
  /\ ~ (nextStartTimeRef s == 0)%Q
  /\ elements (sourcesRef s) = [0%nat].
Proof.
  split; [vm_compute; reflexivity|]. split; [vm_compute; reflexivity|].
  split; [|vm_compute; reflexivity].
  intros H. vm_compute in H. discriminate H.
Qed.

(** C9 (amended). The cursor and the set of live nodes are refs of the
    component, made once when it mounts: only the scheduling of a chunk and
    the end of a node change them.  Stopping a session, starting the next
    and its opening leave both as they were, so a new session begins with
    the cursor and the set the last one left. *)
Theorem refs_kept_across_sessions (s : State) (es : list Event) :
  forallb changes_no_ref es = true ->
  nextStartTimeRef (run s es) = nextStartTimeRef s
  /\ sourcesRef (run s es) = sourcesRef s.
Proof.
  revert s. induction es as [|e es IH]; intros s H; [split; reflexivity|].
  cbn [forallb] in H. apply andb_prop in H. destruct H as [He Hes].
  change (run s (e :: es)) with (run (step s e) es).
  destruct (IH (step s e) Hes) as [-> ->].
  now apply step_keeps_refs.
Qed.

Lemma refs_kept_across_sessions_witness :
  let s := run initial
             [Toggle true; OnOpen 0; OnMessage 0 (audio_message (str "AAA=") None) 0%Q] in
  nextStartTimeRef (run s [Toggle true; Toggle true; OnOpen 1])
  = nextStartTimeRef s
  /\ sourcesRef (run s [Toggle true; Toggle true; OnOpen 1]) = sourcesRef s.
Proof.
  apply (refs_kept_across_sessions
           (run initial
              [Toggle true; OnOpen 0;
               OnMessage 0 (audio_message (str "AAA=") None) 0%Q])
           [Toggle true; Toggle true; OnOpen 1]).
  reflexivity.
Defined.

(** C10. When a session opens, the transcript becomes the single system
    entry that announces the connection, whatever it held before. *)
Theorem onopen_replaces_transcript (sid : nat) (s : State) :
  liveTranscript (step s (OnOpen sid))
  = [ {| role := system;
         text := str "Assistant connected. Describe the school situation." |} ]
  /\ isLiveActive (step s (OnOpen sid)) = true.
Proof. split; reflexivity. Qed.

(** Entries of an earlier session are gone once the next one opens. *)
Example onopen_discards_earlier_entries :
  let said := {| serverContent :=
                   Some {| modelTurn := None;
                           outputTranscription :=
                             Some {| transcription_text := Some (str "Noted.") |};
                           inputTranscription :=
                             Some {| transcription_text := Some (str "The roof leaks.") |} |} |} in
  let s := run initial [Toggle true; OnOpen 0; OnMessage 0 said 0%Q] in
  liveTranscript s
  = [ {| role := system;
         text := str "Assistant connected. Describe the school situation." |};
      {| role := ai; text := str "Noted." |};
      {| role := user; text := str "The roof leaks." |} ]
  /\ liveTranscript (run s [Toggle true; Toggle true; OnOpen 1])
     = [ {| role := system;
            text := str "Assistant connected. Describe the school situation." |} ].
Proof. split; vm_compute; reflexivity. Qed.

(** ** The insight call *)

(** C7, as stated, fails on a response that parses but is not an insight:
    the text [{}] (which also stands in for an absent text) is returned as
    the empty object, not replaced by the fallback. *)
Lemma malformed_response_is_returned :
  let report := {| id := str "k3x9"; schoolName := str "GPS Chak 12";
                   district := str "Multan"; province := str "Pakistan";
                   issues := str "No boundary wall"; timestamp := 0 |} in
  analyzeEducationData (fun _ => Fulfilled (Some (str "{}"))) JSON.parse [report]
  = Fulfilled (JSON.JObject [])
  /\ analyzeEducationData (fun _ => Fulfilled None) JSON.parse [report]
     = Fulfilled (JSON.JObject [])
  /\ JSON.JObject [] <> fallback.
Proof. repeat split; try (vm_compute; reflexivity). discriminate. Qed.

(** C7 (amended). Whenever the remote call returns a response whose text
    [JSON.parse] rejects, [analyzeEducationData] resolves to exactly the
    fallback value; no error reaches the caller, which stores the fallback as
    the insight. *)
Theorem unparseable_response_gives_fallback
    (generateContent : JSString -> Settled (option JSString))
    (JSON_parse : JSString -> option JSON.value)
    (s : Insights) (text : option JSString) :
  reports s <> [] ->
  generateContent (prompt (reports s)) = Fulfilled text ->
  JSON_parse (text_or_braces text) = None ->
  analyzeEducationData generateContent JSON_parse (reports s)
  = Fulfilled fallback
  /\ insight (generateStrategicInsight generateContent JSON_parse s)
     = Some fallback
  /\ isAnalyzing (generateStrategicInsight generateContent JSON_parse s)
     = false.
Proof.
  intros Hne Hr Hp.
  assert (Ha : analyzeEducationData generateContent JSON_parse (reports s)
               = Fulfilled fallback).
  { unfold analyzeEducationData. now rewrite Hr, Hp. }
  split; [exact Ha|].
  unfold generateStrategicInsight.
  destruct (reports s) as [|r l] eqn:E; [congruence|].
  rewrite Ha. split; reflexivity.
Qed.

Lemma unparseable_response_gives_fallback_witness :
  let remote := fun _ : JSString =>
                  Fulfilled (Some (str "I could not analyse these reports.")) in
  let s := {| reports := [ {| id := str "k3x9"; schoolName := str "GPS Chak 12";
                              district := str "Multan"; province := str "Pakistan";
                              issues := str "No boundary wall"; timestamp := 0 |} ];
              insight := None; isAnalyzing := false |} in
  analyzeEducationData remote JSON.parse (reports s) = Fulfilled fallback
  /\ insight (generateStrategicInsight remote JSON.parse s) = Some fallback
  /\ isAnalyzing (generateStrategicInsight remote JSON.parse s) = false.
Proof.
  intros remote s.
  apply (unparseable_response_gives_fallback remote JSON.parse s
           (Some (str "I could not analyse these reports."))).
  - discriminate.
  - reflexivity.
  - vm_compute. reflexivity.
Defined.

(** * Further properties of the codec *)

Module Base64More.
Import Base64 Base64Facts.

Local Open Scope N_scope.

Lemma strip_whitespace_In c data :
  In c data -> is_ascii_whitespace c = false -> In c (strip_whitespace data).
Proof.
  intros Hin Hc. unfold strip_whitespace. apply filter_In.
  split; [exact Hin | now rewrite Hc].
Qed.

Lemma strip_padding_In c data :
  In c data -> c <> pad_char -> In c (strip_padding data).
Proof.
  intros Hin Hc. unfold strip_padding.
  destruct (length data mod 4 =? 0)%nat; [|exact Hin].
  assert (Hrev : In c (rev data)) by now apply in_rev in Hin.
  destruct (rev data) as [|x r] eqn:E; [exact Hin|].
  assert (Hr : x = 61 -> In c (rev r)).
  { intros Hx. destruct Hrev as [Hxc|Hr]; [unfold pad_char in Hc; congruence|].
    now apply in_rev in Hr. }
  assert (Hr2 : forall y r', r = y :: r' -> x = 61 -> y = 61 -> In c (rev r')).
  { intros y r' Er Hx Hy. subst r.
    destruct Hrev as [Hxc|[Hyc|Hr']];
      [unfold pad_char in Hc; congruence | unfold pad_char in Hc; congruence |].
    now apply in_rev in Hr'. }
  destruct x as [|p]; [exact Hin|].
  do 6 (destruct p as [p|p|]; try exact Hin).
  destruct r as [|y r']; [now apply Hr|].
  destruct y as [|q]; [now apply Hr|].
  do 6 (destruct q as [q|q|]; try (now apply Hr)).
  now apply (Hr2 61 r').
Qed.

Lemma sextets_of_foreign c data :
  In c data -> b64_index c = None -> sextets_of data = None.
Proof.
  induction data as [|x l IH]; intros Hin Hc; [contradiction|].
  cbn [sextets_of]. destruct Hin as [->|Hin].
  - now rewrite Hc.
  - rewrite (IH Hin Hc). now destruct (b64_index x).
Qed.

Lemma atob_foreign c data :
  In c data -> is_ascii_whitespace c = false -> c <> pad_char ->
  b64_index c = None -> atob data = None.
Proof.
  intros Hin Hws Hpad Hidx. unfold atob.
  destruct (length _ mod 4 =? 1)%nat; [reflexivity|].
  rewrite (sextets_of_foreign c); [reflexivity | | exact Hidx].
  apply strip_padding_In; [|exact Hpad]. now apply strip_whitespace_In.
Qed.

Lemma strip_whitespace_skip a c b :
  is_ascii_whitespace c = true ->
  strip_whitespace (a ++ c :: b) = strip_whitespace (a ++ b).
Proof.
  intros Hc. unfold strip_whitespace.
  rewrite !List.filter_app. cbn [List.filter]. now rewrite Hc.
Qed.


Lemma list_ind4 {A} (P : list A -> Prop) :
  P [] -> (forall a, P [a]) -> (forall a b, P [a; b]) ->
  (forall a b c, P [a; b; c]) ->
  (forall a b c d l, P l -> P (a :: b :: c :: d :: l)) ->
  forall l, P l.
Proof.
  intros H0 H1 H2 H3 H4.
  fix IH 1. intros [|a [|b [|c [|d l]]]];
    [apply H0 | apply H1 | apply H2 | apply H3 | apply H4, IH].
Qed.

Lemma of_sextets_length ss :
  length (of_sextets ss) = (3 * length ss / 4)%nat.
Proof.
  induction ss as [| a | a b | a b c | a b c d l IH] using list_ind4;
    try reflexivity.
  cbn [of_sextets app length]. rewrite IH. lia.
Qed.

Lemma sextets_of_length data ss :
  sextets_of data = Some ss -> length ss = length data.
Proof.
  revert ss. induction data as [|c l IH]; intros ss H; cbn [sextets_of] in H.
  - now injection H as <-.
  - destruct (b64_index c); [|discriminate].
    destruct (sextets_of l) as [ss'|]; [|discriminate].
    injection H as <-. cbn. now rewrite (IH ss').
Qed.

Lemma sextets_of_total data :
  Forall (fun c => b64_index c <> None) data ->
  exists ss, sextets_of data = Some ss.
Proof.
  induction 1 as [|c l Hc _ [ss IH]]; [now exists []|].
  cbn [sextets_of]. destruct (b64_index c) as [i|]; [|congruence].
  rewrite IH. now eexists.
Qed.

Lemma index_from_In k l c i : index_from k l c = Some i -> In c l.
Proof.
  revert k. induction l as [|x l IH]; intros k H; cbn in H; [discriminate|].
  destruct (N.eqb_spec x c) as [->|_]; [now left | right; eauto].
Qed.

(** A character of the alphabet is neither white space nor the padding. *)
Lemma alphabet_plain c :
  b64_index c <> None ->
  c <> pad_char /\ is_ascii_whitespace c = false.
Proof.
  intros H. destruct (b64_index c) as [i|] eqn:E; [|congruence].
  apply index_from_In in E. clear H. revert c E.
  apply List.Forall_forall. vm_compute.
  repeat (constructor; [split; [discriminate | reflexivity]|]). constructor.
Qed.

Lemma strip_alphabet data :
  Forall (fun c => b64_index c <> None) data ->
  strip_padding (strip_whitespace data) = data.
Proof.
  intros H.
  assert (Hws : strip_whitespace data = data).
  { unfold strip_whitespace. induction H as [|c l Hc _ IH]; [reflexivity|].
    cbn [List.filter]. destruct (alphabet_plain c Hc) as [_ ->]. cbn.
    now rewrite IH. }
  rewrite Hws. unfold strip_padding.
  destruct (length data mod 4 =? 0)%nat; [|reflexivity].
  destruct (rev data) as [|x r] eqn:E; [reflexivity|].
  apply match_not_pad.
  assert (Hin : In x data) by (apply in_rev; rewrite E; now left).
  rewrite List.Forall_forall in H. now destruct (alphabet_plain x (H x Hin)).
Qed.

Lemma padding_spec (n : nat) :
  Forall (fun c => c = pad_char) (padding n)
  /\ (length (padding n) = (3 - n mod 3) mod 3)%nat.
Proof.
  unfold padding.
  assert (n mod 3 < 3)%nat by (apply Nat.mod_upper_bound; lia).
  destruct (n mod 3)%nat as [|[|[|?]]]; try lia; cbn;
    split; repeat constructor.
Qed.

End Base64More.

Lemma decode_of_encode (b : list byte) (t : JSString) :
  encode b = Some t -> decode t = Some b.
Proof.
  intros He. unfold encode in He.
  destruct (Base64Facts.atob_btoa (map Byte.to_N b)) as (t' & Ht & Hd);
    [apply code_units_of_bytes|].
  assert (t' = t) as -> by congruence.
  unfold decode. rewrite Hd. f_equal. apply bytes_of_code_units.
Qed.

(** X1. [decode] throws on any text that holds a character which is not of
    the base64 alphabet, not [=] and not white space. *)
Theorem decode_rejects_foreign (data : JSString) (c : N) :
  In c data ->
  Base64.b64_index c = None ->
  c <> Base64.pad_char ->
  Base64.is_ascii_whitespace c = false ->
  decode data = None.
Proof.
  intros Hin Hidx Hpad Hws. unfold decode.
  now rewrite (Base64More.atob_foreign c data Hin Hws Hpad Hidx).
Qed.

Lemma decode_rejects_foreign_witness : decode (str "SGVs*G8=") = None.
Proof.
  apply (decode_rejects_foreign (str "SGVs*G8=") 42%N).
  - vm_compute. tauto.
  - reflexivity.
  - discriminate.
  - reflexivity.
Defined.

(** X2. White space anywhere in the text makes no difference to [decode]. *)
Theorem decode_skips_whitespace (a b : JSString) (c : N) :
  Base64.is_ascii_whitespace c = true ->
  decode (a ++ c :: b) = decode (a ++ b).
Proof.
  intros Hc. unfold decode, Base64.atob.
  now rewrite (Base64More.strip_whitespace_skip a c b Hc).
Qed.

Lemma decode_skips_whitespace_witness :
  decode (str "SGVs" ++ 10%N :: str "bG8=") = decode (str "SGVs" ++ str "bG8=").
Proof.
  apply (decode_skips_whitespace (str "SGVs") (str "bG8=") 10%N). reflexivity.
Defined.

(** X3. On a text of alphabet characters only (no padding, no white space)
    [decode] throws exactly when the length is one more than a multiple of
    four; otherwise it returns three bytes for every four characters,
    rounded down. *)
Theorem decode_unpadded (data : JSString) :
  Forall (fun c => Base64.b64_index c <> None) data ->
  if (length data mod 4 =? 1)%nat then decode data = None
  else exists bytes, decode data = Some bytes
                     /\ length bytes = (3 * length data / 4)%nat.
Proof.
  intros H. unfold decode, Base64.atob.
  rewrite (Base64More.strip_alphabet data H).
  destruct (length data mod 4 =? 1)%nat; [reflexivity|].
  destruct (Base64More.sextets_of_total data H) as [ss Hss]. rewrite Hss.
  eexists. split; [reflexivity|].
  now rewrite length_map, Base64More.of_sextets_length,
    (Base64More.sextets_of_length _ _ Hss).
Qed.

Lemma decode_unpadded_witness :
  exists bytes, decode (str "SGVsbG8") = Some bytes
                /\ length bytes = (3 * length (str "SGVsbG8") / 4)%nat.
Proof.
  apply (decode_unpadded (str "SGVsbG8")).
  vm_compute. repeat (constructor; [discriminate|]). constructor.
Defined.

(** X4. The text [encode] returns has four characters for every three
    bytes, rounded up; its characters are of the alphabet, but for a
    padding of at most two [=] at the end. *)
Theorem encode_shape (b : list byte) :
  exists body pad,
    encode b = Some (body ++ pad)
    /\ length (body ++ pad) = (4 * ((length b + 2) / 3))%nat
    /\ Forall (fun c => Base64.b64_index c <> None) body
    /\ Forall (fun c => c = Base64.pad_char) pad
    /\ length pad = ((3 - length b mod 3) mod 3)%nat.
Proof.
  exists (map Base64.b64_char (Base64.to_sextets (map Byte.to_N b))),
         (Base64.padding (length b)).
  pose proof (code_units_of_bytes b) as Hb.
  destruct (Base64More.padding_spec (length b)) as [Hp Hpl].
  split; [|split; [|split; [|split]]].
  - unfold encode, Base64.btoa.
    replace (forallb (fun c => (c <=? 255)%N) (map Byte.to_N b)) with true.
    + now rewrite length_map.
    + symmetry. apply forallb_forall. rewrite List.Forall_forall in Hb.
      intros c Hc. apply N.leb_le. specialize (Hb c Hc). lia.
  - rewrite length_app, length_map, Hpl.
    destruct (Base64Facts.to_sextets_length (map Byte.to_N b))
      as [k [[Hn Hs]|[[Hn Hs]|[Hn Hs]]]];
      rewrite length_map in Hn; rewrite Hs; lia.
  - apply List.Forall_forall. intros c Hc. apply in_map_iff in Hc.
    destruct Hc as (i & <- & Hi).
    pose proof (Base64Facts.to_sextets_bound _ Hb) as Hs.
    rewrite List.Forall_forall in Hs.
    destruct (Base64Facts.b64_char_spec i (Hs i Hi)) as [-> _]. discriminate.
  - exact Hp.
  - exact Hpl.
Qed.

(** X5. [encode] gives different texts for different byte arrays. *)
Theorem encode_injective (b1 b2 : list byte) :
  encode b1 = encode b2 -> b1 = b2.
Proof.
  intros H.
  destruct (Base64Facts.atob_btoa (map Byte.to_N b1)) as (t & Ht & _);
    [apply code_units_of_bytes|].
  assert (H1 : encode b1 = Some t) by exact Ht.
  assert (H2 : encode b2 = Some t) by congruence.
  apply decode_of_encode in H1, H2. congruence.
Qed.

Lemma encode_injective_witness :
  ["a"%byte] = ["a"%byte].
Proof. apply (encode_injective ["a"%byte] ["a"%byte]). reflexivity. Defined.

(** ** [decodeAudioData] on any number of channels *)

Lemma list_ind2 {A} (P : list A -> Prop) :
  P [] -> (forall a, P [a]) -> (forall a b l, P l -> P (a :: b :: l)) ->
  forall l, P l.
Proof.
  intros H0 H1 H2. fix IH 1.
  intros [|a [|b l]]; [apply H0 | apply H1 | apply H2, IH].
Qed.

(** The view is refused exactly on an odd number of bytes; otherwise it has
    one element for every two bytes, low byte first. *)
Lemma Int16Array_of_buffer_spec (data : list byte) :
  match Int16Array_of_buffer data with
  | None => (length data mod 2 = 1)%nat
  | Some l =>
      length data = (2 * length l)%nat
      /\ Forall (fun k => -32768 <= k <= 32767)%Z l
      /\ forall j k, l !! j = Some k ->
           exists lo hi, data !! (2 * j)%nat = Some lo
                         /\ data !! (2 * j + 1)%nat = Some hi
                         /\ k = int16_of_bytes lo hi
  end.
Proof.
  induction data as [| a | lo hi rest IH] using list_ind2.
  - cbn. split; [reflexivity|]. split; [constructor|].
    intros j k H. now rewrite lookup_nil in H.
  - reflexivity.
  - cbn [Int16Array_of_buffer].
    destruct (Int16Array_of_buffer rest) as [l|].
    + destruct IH as (Hl & Hr & Hk). split; [cbn; lia|]. split.
      * constructor; [|exact Hr]. unfold int16_of_bytes. cbv zeta.
        pose proof (Byte.to_N_bounded lo). pose proof (Byte.to_N_bounded hi).
        destruct (Z.leb_spec 32768
                    (Z.of_N (Byte.to_N lo) + 256 * Z.of_N (Byte.to_N hi))); lia.
      * intros [|j] k H.
        -- cbn in H. injection H as <-. now exists lo, hi.
        -- cbn in H. destruct (Hk j k H) as (lo' & hi' & H1 & H2 & ->).
           exists lo', hi'.
           replace (2 * S j)%nat with (S (S (2 * j))) by lia.
           replace (S (S (2 * j)) + 1)%nat with (S (S (2 * j + 1))) by lia.
           now repeat split.
    + cbn [length]. lia.
Qed.

Lemma imap_repeat {A B} (f : nat -> A -> B) (x : A) (n : nat) :
  imap f (repeat x n) = map (fun c => f c x) (seq 0 n).
Proof.
  revert f. induction n as [|n IH]; intros f; [reflexivity|].
  cbn [repeat imap seq map]. f_equal.
  rewrite IH, <- seq_shift, map_map. reflexivity.
Qed.

Lemma fill_channel_silence (l : list Z) (nc fc ch : nat) :
  fill_channel l nc fc ch (repeat 0%Q fc)
  = map (fun i => inject_Z (nth (i * nc + ch) l 0%Z) / 32768)%Q (seq 0 fc).
Proof.
  unfold fill_channel.
  rewrite (foldl_insert_seq
             (fun i => (inject_Z (nth (i * nc + ch) l 0%Z) / 32768)%Q))
    by (rewrite repeat_length; reflexivity).
  rewrite drop_ge by (rewrite repeat_length; reflexivity).
  apply app_nil_r.
Qed.

(** What [decodeAudioData] returns, channel by channel. *)
Lemma decodeAudioData_channels data rate nc :
  decodeAudioData data rate nc
  = match Int16Array_of_buffer data with
    | None => None
    | Some l =>
        if ((nc =? 0) || (length l / nc =? 0))%nat then None
        else Some {| numberOfChannels := nc;
                     buf_length := length l / nc;
                     sampleRate := rate;
                     channelData :=
                       map (fun ch =>
                              map (fun i => inject_Z (nth (i * nc + ch) l 0%Z)
                                            / 32768)%Q
                                  (seq 0 (length l / nc)))
                           (seq 0 nc) |}
    end.
Proof.
  unfold decodeAudioData.
  destruct (Int16Array_of_buffer data) as [l|]; [|reflexivity].
  unfold createBuffer.
  destruct ((nc =? 0) || (length l / nc =? 0))%nat; [reflexivity|].
  cbn [numberOfChannels buf_length sampleRate channelData].
  do 2 f_equal. rewrite imap_repeat. apply map_ext. intros ch.
  apply fill_channel_silence.
Qed.

Lemma lookup_map_seq {B} (f : nat -> B) (a n i : nat) :
  (i < n)%nat -> map f (seq a n) !! i = Some (f (a + i)%nat).
Proof.
  revert a i. induction n as [|n IH]; intros a i Hi; [lia|].
  destruct i as [|i]; cbn.
  - now rewrite Nat.add_0_r.
  - rewrite IH by lia. f_equal. f_equal. lia.
Qed.

Lemma in_map_seq {B} (f : nat -> B) (n : nat) (y : B) :
  In y (map f (seq 0 n)) -> exists i, (i < n)%nat /\ y = f i.
Proof.
  intros H. apply in_map_iff in H. destruct H as (i & <- & Hi).
  apply in_seq in Hi. exists i. split; [lia | reflexivity].
Qed.

Lemma int16_sample_range (k : Z) :
  (-32768 <= k <= 32767)%Z ->
  (-1 <= inject_Z k / 32768)%Q /\ (inject_Z k / 32768 < 1)%Q.
Proof. intros H. unfold Qle, Qlt. cbn. lia. Qed.

Lemma nth_in_range (l : list Z) (i : nat) :
  Forall (fun k => -32768 <= k <= 32767)%Z l ->
  (-32768 <= nth i l 0 <= 32767)%Z.
Proof.
  intros H. destruct (nth_in_or_default i l 0%Z) as [Hin| ->]; [|lia].
  rewrite List.Forall_forall in H. now apply H.
Qed.

(** X6. [decodeAudioData] throws whenever the number of bytes is odd, there
    is no channel, or the bytes hold less than one frame (fewer 16-bit
    samples than channels, which covers the empty array).  For a number of
    channels up to 32 and a rate from 8000 to 96000, which every browser
    has to accept, it throws in these cases only. *)
Theorem decodeAudioData_throws_iff (data : list byte) (rate : positive)
    (numChannels : nat) :
  ((length data mod 2 = 1 \/ numChannels = 0
    \/ length data / 2 < numChannels)%nat ->
   decodeAudioData data rate numChannels = None)
  /\ ((numChannels <= 32)%nat ->
      (8000 <= rate)%positive -> (rate <= 96000)%positive ->
      decodeAudioData data rate numChannels = None ->
      (length data mod 2 = 1 \/ numChannels = 0
       \/ length data / 2 < numChannels)%nat).
Proof.
  assert (H : decodeAudioData data rate numChannels = None
              <-> (length data mod 2 = 1 \/ numChannels = 0
                   \/ length data / 2 < numChannels)%nat).
  { rewrite decodeAudioData_channels.
    pose proof (Int16Array_of_buffer_spec data) as Hs.
    destruct (Int16Array_of_buffer data) as [l|].
    - destruct Hs as (Hl & _).
      assert (Hh : (length data / 2 = length l)%nat) by lia.
      rewrite Hh.
      destruct (Nat.eqb_spec numChannels 0) as [->|Hnc].
      { cbn. split; [auto | reflexivity]. }
      cbn [orb].
      destruct (Nat.eqb_spec (length l / numChannels) 0) as [Hz|Hz].
      + split; [|reflexivity]. intros _. right. right.
        now apply Nat.div_small_iff in Hz.
      + split; [discriminate|]. intros [H|[H|H]]; [lia | lia |].
        apply Nat.div_small_iff in H; [contradiction | exact Hnc].
    - split; [auto | reflexivity]. }
  split; [apply H | intros _ _ _; apply H].
Qed.

Lemma decodeAudioData_throws_iff_witness :
  decodeAudioData [x00; x80; xff] 24000 1 = None
  /\ (length [x00; x80] mod 2 = 1 \/ 2 = 0 \/ length [x00; x80] / 2 < 2)%nat.
Proof.
  destruct (decodeAudioData_throws_iff [x00; x80; xff] 24000 1) as [H1 _].
  destruct (decodeAudioData_throws_iff [x00; x80] 24000 2) as [_ H2].
  split.
  - apply H1. left. reflexivity.
  - apply H2; [lia | lia | lia | reflexivity].
Defined.

(** X7. When [decodeAudioData] returns, the buffer has the channels and the
    rate asked for and as many frames as whole frames fit in the bytes;
    sample [i] of channel [ch] is the 16-bit number of bytes
    [2 * (i * numChannels + ch)] and the next, low byte first, divided by
    [32768]. *)
Theorem decodeAudioData_deinterleaves (data : list byte) (rate : positive)
    (numChannels : nat) (buffer : AudioBuffer) :
  decodeAudioData data rate numChannels = Some buffer ->
  numberOfChannels buffer = numChannels
  /\ sampleRate buffer = rate
  /\ buf_length buffer = (length data / 2 / numChannels)%nat
  /\ length (channelData buffer) = numChannels
  /\ forall ch i,
       (ch < numChannels)%nat -> (i < buf_length buffer)%nat ->
       exists samples lo hi,
         channelData buffer !! ch = Some samples
         /\ length samples = buf_length buffer
         /\ data !! (2 * (i * numChannels + ch))%nat = Some lo
         /\ data !! (2 * (i * numChannels + ch) + 1)%nat = Some hi
         /\ samples !! i = Some (inject_Z (int16_of_bytes lo hi) / 32768)%Q.
Proof.
  rewrite decodeAudioData_channels.
  pose proof (Int16Array_of_buffer_spec data) as Hs.
  destruct (Int16Array_of_buffer data) as [l|]; [|discriminate].
  destruct Hs as (Hl & _ & Hk).
  destruct ((numChannels =? 0) || (length l / numChannels =? 0))%nat;
    [discriminate|].
  intros H. injection H as <-.
  cbn [numberOfChannels buf_length sampleRate channelData].
  assert (Hh : (length data / 2 = length l)%nat) by lia.
  rewrite Hh, length_map, length_seq.
  repeat (split; [reflexivity|]).
  intros ch i Hch Hi.
  set (idx := (i * numChannels + ch)%nat).
  assert (Hidx : (idx < length l)%nat).
  { pose proof (Nat.Div0.mul_div_le (length l) numChannels). unfold idx. nia. }
  destruct (lookup_lt_is_Some_2 l idx Hidx) as [k Hlk].
  destruct (Hk idx k Hlk) as (lo & hi & H1 & H2 & ->).
  eexists _, lo, hi. split; [apply (lookup_map_seq _ 0 numChannels ch Hch)|].
  split; [now rewrite length_map, length_seq|].
  split; [exact H1|]. split; [exact H2|].
  rewrite (lookup_map_seq _ 0 _ i Hi). cbn [Nat.add]. fold idx.
  now rewrite (nth_lookup_Some _ _ 0%Z _ Hlk).
Qed.

Lemma decodeAudioData_deinterleaves_witness :
  let data := [x00; x01; x00; x80; xff; x7f; x00; x00] in
  exists buffer samples,
    decodeAudioData data 24000 2 = Some buffer
    /\ buf_length buffer = 2%nat
    /\ channelData buffer !! 1%nat = Some samples
    /\ samples !! 0%nat = Some (inject_Z (int16_of_bytes x00 x80) / 32768)%Q.
Proof.
  intros data.
  destruct (decodeAudioData data 24000 2) as [buffer|] eqn:E;
    [|vm_compute in E; discriminate E].
  destruct (decodeAudioData_deinterleaves data 24000 2 buffer E)
    as (_ & _ & Hl & _ & Hs).
  assert (Hl2 : buf_length buffer = 2%nat) by (rewrite Hl; reflexivity).
  destruct (Hs 1%nat 0%nat) as (samples & lo & hi & H1 & _ & Hlo & Hhi & H2);
    [lia | lia |].
  cbn in Hlo, Hhi. injection Hlo as <-. injection Hhi as <-.
  exists buffer, samples. now repeat split.
Defined.

(** X8. Every sample [decodeAudioData] returns lies in [[-1, 1)]. *)
Theorem decodeAudioData_samples_normalized (data : list byte)
    (rate : positive) (numChannels : nat) (buffer : AudioBuffer) :
  decodeAudioData data rate numChannels = Some buffer ->
  forall samples x,
    In samples (channelData buffer) -> In x samples ->
    (-1 <= x)%Q /\ (x < 1)%Q.
Proof.
  rewrite decodeAudioData_channels.
  pose proof (Int16Array_of_buffer_spec data) as Hs.
  destruct (Int16Array_of_buffer data) as [l|]; [|discriminate].
  destruct Hs as (_ & Hr & _).
  destruct ((numChannels =? 0) || (length l / numChannels =? 0))%nat;
    [discriminate|].
  intros H. injection H as <-. cbn [channelData].
  intros samples x Hsamples Hx.
  apply in_map_seq in Hsamples. destruct Hsamples as (ch & _ & ->).
  apply in_map_seq in Hx. destruct Hx as (i & _ & ->).
  apply int16_sample_range, nth_in_range, Hr.
Qed.

Lemma decodeAudioData_samples_normalized_witness :
  (-1 <= inject_Z (int16_of_bytes x00 x80) / 32768)%Q
  /\ (inject_Z (int16_of_bytes x00 x80) / 32768 < 1)%Q.
Proof.
  apply (decodeAudioData_samples_normalized [x00; x80] 24000 1
           {| numberOfChannels := 1; buf_length := 1; sampleRate := 24000;
              channelData := [[(inject_Z (int16_of_bytes x00 x80) / 32768)%Q]] |}
           eq_refl
           [(inject_Z (int16_of_bytes x00 x80) / 32768)%Q]).
  - now left.
  - now left.
Defined.

Lemma int16_bytes_of_bytes (lo hi : byte) :
  int16_bytes (int16_of_bytes lo hi) = [lo; hi].
Proof.
  unfold int16_bytes, int16_of_bytes. cbv zeta.
  pose proof (Byte.to_N_bounded lo). pose proof (Byte.to_N_bounded hi).
  set (u := (Z.of_N (Byte.to_N lo) + 256 * Z.of_N (Byte.to_N hi))%Z).
  assert (Hu : Z.to_N ((if (32768 <=? u)%Z then (u - 65536)%Z else u) mod 65536)
               = (Byte.to_N lo + 256 * Byte.to_N hi)%N).
  { unfold u. destruct (Z.leb_spec 32768
        (Z.of_N (Byte.to_N lo) + 256 * Z.of_N (Byte.to_N hi))); lia. }
  rewrite Hu.
  replace ((Byte.to_N lo + 256 * Byte.to_N hi) mod 256)%N with (Byte.to_N lo)
    by lia.
  replace ((Byte.to_N lo + 256 * Byte.to_N hi) / 256)%N with (Byte.to_N hi)
    by lia.
  now rewrite !to_uint8_to_N.
Qed.

Lemma Uint8Array_of_Int16Array_of_buffer (data : list byte) (l : list Z) :
  Int16Array_of_buffer data = Some l -> Uint8Array_of_Int16Array l = data.
Proof.
  revert l. induction data as [| a | lo hi rest IH] using list_ind2;
    intros l H; cbn [Int16Array_of_buffer] in H.
  - now injection H as <-.
  - discriminate.
  - destruct (Int16Array_of_buffer rest) as [l'|]; [|discriminate].
    injection H as <-. unfold Uint8Array_of_Int16Array in *.
    cbn [flat_map]. now rewrite int16_bytes_of_bytes, (IH l' eq_refl).
Qed.

Lemma ToInt16_of_sample (k : Z) :
  (-32768 <= k <= 32767)%Z -> ToInt16 (inject_Z k / 32768 * 32768) = k.
Proof.
  intros H.
  assert (Ht : truncate (inject_Z k / 32768 * 32768) = k).
  { unfold truncate. cbn. rewrite Z.mul_1_r. apply Z.quot_mul. lia. }
  rewrite ToInt16_in_range; rewrite Ht; [reflexivity | exact H].
Qed.

(** X9. The other round trip: the samples [decodeAudioData] reads from
    mono bytes go back, through the capture-side conversion, to exactly
    those bytes. *)
Theorem samplesToPCM16_of_decoded (data : list byte) (rate : positive)
    (buffer : AudioBuffer) :
  decodeAudioData data rate 1 = Some buffer ->
  exists samples,
    channelData buffer = [samples] /\ samplesToPCM16 samples = data.
Proof.
  intros H.
  pose proof (Int16Array_of_buffer_spec data) as Hs.
  destruct (Int16Array_of_buffer data) as [l|] eqn:E;
    [|unfold decodeAudioData in H; now rewrite E in H].
  destruct Hs as (_ & Hr & _).
  assert (Hne : l <> []).
  { intros ->. rewrite decodeAudioData_channels, E in H. discriminate H. }
  rewrite (decodeAudioData_mono _ _ _ E Hne) in H. injection H as <-.
  eexists. split; [reflexivity|].
  unfold samplesToPCM16, int16_of_samples. rewrite map_map.
  transitivity (Uint8Array_of_Int16Array l);
    [f_equal | now apply Uint8Array_of_Int16Array_of_buffer].
  rewrite <- (map_id l) at 2. apply map_ext_in. intros k Hk.
  apply ToInt16_of_sample. rewrite List.Forall_forall in Hr. now apply Hr.
Qed.

Lemma samplesToPCM16_of_decoded_witness :
  exists samples,
    samplesToPCM16 samples = [x00; x80; xff; x7f; x34; x12].
Proof.
  destruct (decodeAudioData [x00; x80; xff; x7f; x34; x12] 24000 1)
    as [buffer|] eqn:E; [|vm_compute in E; discriminate E].
  destruct (samplesToPCM16_of_decoded _ _ _ E) as (samples & _ & H).
  now exists samples.
Defined.

(** ** The capture callback on any input *)

Lemma encode_length (b : list byte) (t : JSString) :
  encode b = Some t -> length t = (4 * ((length b + 2) / 3))%nat.
Proof.
  unfold encode, Base64.btoa.
  destruct (forallb _ _); [|discriminate]. intros H. injection H as <-.
  destruct (Base64More.padding_spec (length (map Byte.to_N b))) as [_ Hpl].
  rewrite length_app, length_map, Hpl.
  destruct (Base64Facts.to_sextets_length (map Byte.to_N b))
    as [k [[Hn Hs]|[[Hn Hs]|[Hn Hs]]]];
    rewrite Hs; rewrite length_map in *; lia.
Qed.


(** X11. Loop-back: the text the capture callback sends for a non-empty
    frame of samples in [[-1, 1)], received as the audio part of a message,
    is scheduled as one mono buffer at 24 kHz of as many frames, each
    sample less than [1/32768] from the captured one. *)
Theorem captured_frame_plays_back (sid outCtx : nat) (inputData : list Q)
    (said : option JSString) (now : Q) (s s' : State) :
  inputData <> [] ->
  Forall (fun x => -1 <= x /\ x < 1)%Q inputData ->
  exists d samples,
    onaudioprocess sid inputData s
    = Some (set_sent
              (sent s ++ [(sid, {| media_data := d;
                                   mimeType := str "audio/pcm;rate=16000" |})])
              s)
    /\ play_audio outCtx (audio_message d said) now s'
       = Some (schedule outCtx
                 {| numberOfChannels := 1; buf_length := length inputData;
                    sampleRate := 24000; channelData := [samples] |}
                 now s')
    /\ Forall2 (fun x y => Qabs (y - x) < 1 # 32768)%Q inputData samples.
Proof.
  intros Hne Hs.
  destruct (Base64Facts.atob_btoa (map Byte.to_N (samplesToPCM16 inputData)))
    as (d & He & _); [apply code_units_of_bytes|].
  change (encode (samplesToPCM16 inputData) = Some d) in He.
  exists d, (map (fun k => inject_Z k / 32768)%Q (int16_of_samples inputData)).
  split; [|split].
  - unfold onaudioprocess. fold (samplesToPCM16 inputData). now rewrite He.
  - assert (Hd : d <> []).
    { intros ->. apply encode_length in He.
      rewrite samplesToPCM16_length in He. cbn [length] in He.
      destruct inputData; [congruence | cbn [length] in He; lia]. }
    unfold play_audio. cbn [audioData_of audio_message serverContent
                              modelTurn parts inlineData data].
    destruct d as [|c d']; [congruence|].
    rewrite (decode_of_encode _ _ He).
    rewrite (decodeAudioData_mono _ _ (int16_of_samples inputData)).
    + unfold int16_of_samples at 1. now rewrite length_map.
    + apply Int16Array_of_samplesToPCM16.
    + unfold int16_of_samples. destruct inputData; [congruence | discriminate].
  - unfold int16_of_samples. clear - Hs.
    induction Hs as [|x l [Hlo Hhi] _ IH]; constructor; [|exact IH].
    now apply sample_close.
Qed.

Lemma captured_frame_plays_back_witness :
  exists d samples,
    onaudioprocess 0 [(1 # 2)%Q; (-1 # 3)%Q] initial
    = Some (set_sent
              (sent initial
                 ++ [(0%nat, {| media_data := d;
                                mimeType := str "audio/pcm;rate=16000" |})])
              initial)
    /\ play_audio 1 (audio_message d None) 0%Q initial
       = Some (schedule 1
                 {| numberOfChannels := 1;
                    buf_length := length [(1 # 2)%Q; (-1 # 3)%Q];
                    sampleRate := 24000; channelData := [samples] |}
                 0%Q initial)
    /\ Forall2 (fun x y => Qabs (y - x) < 1 # 32768)%Q
         [(1 # 2)%Q; (-1 # 3)%Q] samples.
Proof.
  apply (captured_frame_plays_back 0 1 [(1 # 2)%Q; (-1 # 3)%Q] None 0%Q
           initial initial).
  - discriminate.
  - repeat constructor; vm_compute; congruence.
Defined.

(** A sample of [[-1, 1)] comes back no larger in magnitude and with its
    sign: the conversion drops the fraction, towards zero. *)
Lemma sample_shrinks (x : Q) :
  (-1 <= x)%Q -> (x < 1)%Q ->
  (Qabs (inject_Z (ToInt16 (x * 32768)) / 32768) <= Qabs x
   /\ 0 <= x * (inject_Z (ToInt16 (x * 32768)) / 32768))%Q.
Proof.
  intros Hlo Hhi.
  assert (Ht : (-32768 <= truncate (x * 32768) <= 32767)%Z
               /\ (Qabs (inject_Z (truncate (x * 32768)) / 32768) <= Qabs x
                   /\ 0 <= x * (inject_Z (truncate (x * 32768)) / 32768))%Q).
  { destruct x as [n d]. unfold truncate, Qle, Qlt in *. cbn in Hlo, Hhi |- *.
    rewrite ?Z.mul_1_r, ?Pos.mul_1_r in *.
    pose proof (Z.quot_rem' (n * 32768) (Z.pos d)) as E.
    set (q := ((n * 32768) ÷ Z.pos d)%Z) in *.
    set (r := Z.rem (n * 32768) (Z.pos d)) in *.
    assert (Hr : (0 <= n -> 0 <= r < Z.pos d)%Z).
    { intros Hn. apply Z.rem_bound_pos; lia. }
    assert (Hr' : (n <= 0 -> - Z.pos d < r <= 0)%Z).
    { intros Hn. apply Z.rem_bound_pos_neg; lia. }
    clearbody q r.
    rewrite ?Pos2Z.inj_mul. change (Z.pos (1 * 32768)) with 32768%Z.
    destruct (Z.le_ge_cases 0 n) as [Hn|Hn].
    - specialize (Hr Hn). assert (0 <= q)%Z by nia.
      split; [nia|]. split; [lia | nia].
    - specialize (Hr' Hn). assert (q <= 0)%Z by nia.
      split; [nia|]. split; [lia | nia]. }
  destruct Ht as [Hr Hc]. now rewrite ToInt16_in_range.
Qed.

(** X12. For a non-empty array of samples in [[-1, 1)], the samples that
    come back from the PCM16 round trip are never larger in magnitude than
    the originals and never of the opposite sign. *)
Theorem pcm16_roundtrip_shrinks (s : list Q) (rate : positive) :
  s <> [] ->
  Forall (fun x => -1 <= x /\ x < 1)%Q s ->
  exists out,
    decodeAudioData (samplesToPCM16 s) rate 1
    = Some {| numberOfChannels := 1; buf_length := length s;
              sampleRate := rate; channelData := [out] |}
    /\ Forall2 (fun x y => Qabs y <= Qabs x /\ 0 <= x * y)%Q s out.
Proof.
  intros Hne Hs.
  exists (map (fun k => inject_Z k / 32768)%Q (int16_of_samples s)). split.
  - rewrite (decodeAudioData_mono _ _ (int16_of_samples s)).
    + unfold int16_of_samples at 1. now rewrite length_map.
    + apply Int16Array_of_samplesToPCM16.
    + unfold int16_of_samples. destruct s; [congruence | discriminate].
  - unfold int16_of_samples. clear Hne.
    induction Hs as [|x l [Hlo Hhi] _ IH]; constructor; [|exact IH].
    now apply sample_shrinks.
Qed.

Lemma pcm16_roundtrip_shrinks_witness :
  exists out,
    decodeAudioData (samplesToPCM16 [(-2 # 3)%Q; (1 # 7)%Q]) 24000 1
    = Some {| numberOfChannels := 1; buf_length := 2;
              sampleRate := 24000; channelData := [out] |}
    /\ Forall2 (fun x y => Qabs y <= Qabs x /\ 0 <= x * y)%Q
         [(-2 # 3)%Q; (1 # 7)%Q] out.
Proof.
  apply (pcm16_roundtrip_shrinks [(-2 # 3)%Q; (1 # 7)%Q] 24000).
  - discriminate.
  - repeat constructor; vm_compute; congruence.
Defined.

(** * Invariants over runs of the live session *)

Lemma run_invariant (P : State -> Prop) :
  (forall s e, P s -> P (step s e)) ->
  forall es s, P s -> P (run s es).
Proof.
  intros Hstep es. induction es as [|e es IH]; intros s Hs; [exact Hs|].
  change (run s (e :: es)) with (run (step s e) es). apply IH, Hstep, Hs.
Qed.

Lemma append_transcriptions_keeps message s :
  nodes (append_transcriptions message s) = nodes s
  /\ nextStartTimeRef (append_transcriptions message s) = nextStartTimeRef s
  /\ sourcesRef (append_transcriptions message s) = sourcesRef s
  /\ contexts (append_transcriptions message s) = contexts s
  /\ sessions (append_transcriptions message s) = sessions s
  /\ inputCtxRef (append_transcriptions message s) = inputCtxRef s
  /\ audioContextRef (append_transcriptions message s) = audioContextRef s.
Proof.
  unfold append_transcriptions.
  destruct (serverContent message) as [sc|]; [|now repeat split].
  now destruct (outputTranscription sc), (inputTranscription sc).
Qed.

(** What a message does to the scheduler: nothing, or one [schedule]. *)
Lemma onmessage_cases outCtx message now s :
  let s' := onmessage outCtx message now s in
  (nodes s' = nodes s /\ nextStartTimeRef s' = nextStartTimeRef s
   /\ sourcesRef s' = sourcesRef s)
  \/ exists buffer,
       nodes s' = nodes (schedule outCtx buffer now s)
       /\ nextStartTimeRef s' = nextStartTimeRef (schedule outCtx buffer now s)
       /\ sourcesRef s' = sourcesRef (schedule outCtx buffer now s).
Proof.
  cbv zeta. unfold onmessage, play_audio.
  destruct (audioData_of message) as [[[|c d]|]|].
  - left. now destruct (append_transcriptions_keeps message s) as (-> & -> & -> & _).
  - destruct (decode (c :: d)) as [bytes|]; [|now left].
    destruct (decodeAudioData bytes 24000 1) as [buffer|]; [|now left].
    right. exists buffer.
    now destruct (append_transcriptions_keeps message
                    (schedule outCtx buffer now s)) as (-> & -> & -> & _).
  - left. now destruct (append_transcriptions_keeps message s) as (-> & -> & -> & _).
  - now left.
Qed.

Lemma onmessage_keeps_contexts outCtx message now s :
  contexts (onmessage outCtx message now s) = contexts s
  /\ sessions (onmessage outCtx message now s) = sessions s
  /\ inputCtxRef (onmessage outCtx message now s) = inputCtxRef s
  /\ audioContextRef (onmessage outCtx message now s) = audioContextRef s.
Proof.
  unfold onmessage, play_audio.
  destruct (audioData_of message) as [[[|c d]|]|]; try (now repeat split);
    try (now destruct (append_transcriptions_keeps message s)
               as (_ & _ & _ & -> & -> & -> & ->)).
  destruct (decode (c :: d)) as [bytes|]; [|now repeat split].
  destruct (decodeAudioData bytes 24000 1) as [buffer|]; [|now repeat split].
  now destruct (append_transcriptions_keeps message
                  (schedule outCtx buffer now s))
    as (_ & _ & _ & -> & -> & -> & ->).
Qed.

Lemma in_order_schedule outCtx buffer now s :
  in_order s -> in_order (schedule outCtx buffer now s).
Proof.
  intros [Hgap Hcur]. unfold in_order.
  rewrite schedule_nodes, schedule_cursor. split.
  - intros n a b Ha Hb.
    destruct (Nat.lt_ge_cases (S n) (length (nodes s))) as [Hlt|Hge].
    + rewrite lookup_app_l in Ha by lia. rewrite lookup_app_l in Hb by lia.
      eauto.
    + assert (Hn : S n = length (nodes s)).
      { apply lookup_lt_Some in Hb. rewrite length_app in Hb. cbn in Hb. lia. }
      rewrite lookup_app_l in Ha by lia.
      rewrite Hn, list_lookup_middle in Hb by reflexivity.
      injection Hb as <-. cbn [node_start].
      eapply Qle_trans; [|apply Math_max_l].
      apply Hcur. eapply list_elem_of_In, list_elem_of_lookup_2, Ha.
  - intros a Ha. apply in_app_or in Ha. destruct Ha as [Ha|[<-|[]]].
    + eapply Qle_trans; [apply Hcur, Ha|].
      eapply Qle_trans; [apply Math_max_l|].
      rewrite <- (Qplus_0_r (Math_max _ _)) at 1.
      apply Qplus_le_r, duration_nonneg.
    + unfold node_end. cbn [node_start node_buffer]. apply Qle_refl.
Qed.

Lemma step_nodes_cursor s e :
  (forall sid m t, e <> OnMessage sid m t) ->
  nodes (step s e) = nodes s /\ nextStartTimeRef (step s e) = nextStartTimeRef s.
Proof.
  intros He.
  destruct e as [g|sid|sid inp|sid m t|sid|sid|src]; cbn [step];
    try (split; reflexivity).
  - unfold toggleLiveReporting. destruct (isLiveActive s).
    + cbv zeta.
      destruct (inputCtxRef (set_isLiveActive false s)) as [c|];
        cbn [close_context];
        match goal with
        | |- context [close_context ?r ?x] => now destruct r
        end.
    + now destruct g.
  - unfold onaudioprocess. now destruct (encode _).
  - now elim (He sid m t).
Qed.

Lemma in_order_step s e : in_order s -> in_order (step s e).
Proof.
  intros H.
  destruct e as [g|sid|sid inp|sid m t|sid|sid|src];
    try (match goal with
         | |- in_order (step ?s ?e) =>
             destruct (step_nodes_cursor s e ltac:(discriminate)) as [Hn Hc]
         end;
         unfold in_order; rewrite Hn, Hc; exact H).
  cbn [step]. destruct (sessions s !! sid) as [ses|]; [|exact H].
  destruct (onmessage_cases (ses_outCtx ses) m t s) as [(Hn & Hc & _)|(b & Hn & Hc & _)].
  - unfold in_order. rewrite Hn, Hc. exact H.
  - pose proof (in_order_schedule (ses_outCtx ses) b t s H) as H'.
    unfold in_order in *. rewrite Hn, Hc. exact H'.
Qed.

Lemma in_order_pairwise s :
  in_order s ->
  forall j i a b,
    (i < j)%nat -> nodes s !! i = Some a -> nodes s !! j = Some b ->
    (node_end a <= node_start b)%Q.
Proof.
  intros [Hgap _]. induction j as [|j IH]; intros i a b Hij Ha Hb; [lia|].
  destruct (decide (i = j)) as [->|Hne]; [now apply (Hgap j)|].
  destruct (lookup_lt_is_Some_2 (nodes s) j) as [c Hc].
  { apply lookup_lt_Some in Hb. lia. }
  apply Qle_trans with (node_start c); [apply (IH i a c); [lia | auto ..]|].
  apply Qle_trans with (node_end c); [|now apply (Hgap j)].
  unfold node_end. rewrite <- (Qplus_0_r (node_start c)) at 1.
  apply Qplus_le_r, duration_nonneg.
Qed.

(** X13. Two nodes started on the same output context never overlap,
    whatever the run of the component: however many sessions there are and
    however their messages interleave, the node started later begins no
    earlier, on the clock of that context, than the other one ends. *)
Theorem same_context_nodes_never_overlap (es : list Event) (i j : nat)
    (a b : SourceNode) :
  (i < j)%nat ->
  nodes (run initial es) !! i = Some a ->
  nodes (run initial es) !! j = Some b ->
  node_ctx a = node_ctx b ->
  (node_start a + duration (node_buffer a) <= node_start b)%Q.
Proof.
  intros Hij Ha Hb _.
  assert (H : in_order (run initial es)).
  { apply run_invariant.
    - intros s e. apply in_order_step.
    - split.
      + intros n x y H. cbn [nodes initial] in H. now rewrite lookup_nil in H.
      + intros x Hx. cbn in Hx. contradiction. }
  exact (in_order_pairwise _ H j i a b Hij Ha Hb).
Qed.

Lemma same_context_nodes_never_overlap_witness :
  let es := [Toggle true; Toggle true; OnOpen 0; OnOpen 1;
             OnMessage 0 (audio_message (str "AAAAAA==") None) 0%Q;
             OnMessage 1 (audio_message (str "AAA=") None) 0%Q;
             OnMessage 0 (audio_message (str "AAA=") None) 0%Q] in
  exists a b,
    nodes (run initial es) !! 0%nat = Some a
    /\ nodes (run initial es) !! 2%nat = Some b
    /\ node_ctx a = 1%nat /\ node_ctx b = 1%nat
    /\ (node_start a + duration (node_buffer a) <= node_start b)%Q.
Proof.
  intros es.
  eexists _, _. split; [vm_compute; reflexivity|].
  split; [vm_compute; reflexivity|].
  split; [reflexivity|]. split; [reflexivity|].
  apply (same_context_nodes_never_overlap es 0 2);
    [lia | vm_compute; reflexivity | vm_compute; reflexivity | reflexivity].
Defined.

Lemma step_nodes_prefix s e : nodes s `prefix_of` nodes (step s e).
Proof.
  destruct e as [g|sid|sid inp|sid m t|sid|sid|src];
    try (match goal with
         | |- _ `prefix_of` nodes (step ?s ?e) =>
             destruct (step_nodes_cursor s e ltac:(discriminate)) as [-> _]
         end; reflexivity).
  cbn [step]. destruct (sessions s !! sid) as [ses|]; [|reflexivity].
  destruct (onmessage_cases (ses_outCtx ses) m t s)
    as [(-> & _)|(b & -> & _)]; [reflexivity|].
  rewrite schedule_nodes. now apply prefix_app_r.
Qed.

Lemma step_sourcesRef s e x :
  x ∈ sourcesRef (step s e) ->
  x ∈ sourcesRef s \/ (x = length (nodes s) /\ length (nodes (step s e)) = S x).
Proof.
  destruct e as [g|sid|sid inp|sid m t|sid|sid|src];
    try (match goal with
         | |- _ ∈ sourcesRef (step ?s ?e) -> _ =>
             destruct (step_keeps_refs s e eq_refl) as [_ ->]
         end; now left).
  - cbn [step]. destruct (sessions s !! sid) as [ses|]; [|now left].
    destruct (onmessage_cases (ses_outCtx ses) m t s)
      as [(_ & _ & ->)|(b & -> & _ & ->)]; [now left|].
    rewrite schedule_nodes, length_app. cbn [length].
    change (sourcesRef (schedule (ses_outCtx ses) b t s))
      with ({[ length (nodes s) ]} ∪ sourcesRef s).
    intros Hx. apply elem_of_union in Hx. destruct Hx as [Hx|Hx]; [|now left].
    apply elem_of_singleton in Hx. right. split; [exact Hx | lia].
  - cbn [step onended sourcesRef set_sourcesRef]. intros Hx. left.
    now apply elem_of_difference in Hx.
Qed.

(** X15. Over any run of the component, the set of live sources only holds
    nodes that were started. *)
Theorem live_sources_were_started (es : list Event) (x : nat) :
  x ∈ sourcesRef (run initial es) ->
  (x < length (nodes (run initial es)))%nat.
Proof.
  revert x.
  change ((fun s => forall x, x ∈ sourcesRef s -> (x < length (nodes s))%nat)
            (run initial es)).
  apply run_invariant.
  - intros s e IH x Hx.
    pose proof (prefix_length _ _ (step_nodes_prefix s e)) as Hl.
    destruct (step_sourcesRef s e x Hx) as [H|[-> H]].
    + specialize (IH x H). lia.
    + lia.
  - intros x Hx. cbn in Hx. now apply not_elem_of_empty in Hx.
Qed.

Lemma live_sources_were_started_witness :
  let es := [Toggle true; OnOpen 0;
             OnMessage 0 (audio_message (str "AAA=") None) 0%Q] in
  (0 < length (nodes (run initial es)))%nat.
Proof.
  intros es. apply (live_sources_were_started es 0%nat).
  vm_compute. reflexivity.
Defined.

(** ** Audio contexts and sessions *)

Lemma set_status_keeps sid v s :
  contexts (set_status sid v s) = contexts s
  /\ inputCtxRef (set_status sid v s) = inputCtxRef s
  /\ audioContextRef (set_status sid v s) = audioContextRef s
  /\ length (sessions (set_status sid v s)) = length (sessions s)
  /\ forall i ses,
       sessions (set_status sid v s) !! i = Some ses ->
       exists ses0, sessions s !! i = Some ses0
                    /\ ses_inCtx ses = ses_inCtx ses0
                    /\ ses_outCtx ses = ses_outCtx ses0.
Proof.
  unfold set_status. cbn [contexts inputCtxRef audioContextRef sessions set_sessions].
  repeat (split; [reflexivity|]). split; [apply length_alter|].
  intros i ses H. destruct (decide (sid = i)) as [->|Hne].
  - rewrite list_lookup_alter_eq in H.
    destruct (sessions s !! i) as [ses0|]; cbn in H; [|discriminate].
    injection H as <-. now exists ses0.
  - rewrite list_lookup_alter_ne in H by exact Hne. now exists ses.
Qed.

(** What an event other than the button does to contexts and sessions. *)
Lemma step_keeps_contexts s e :
  (forall g, e <> Toggle g) ->
  contexts (step s e) = contexts s
  /\ inputCtxRef (step s e) = inputCtxRef s
  /\ audioContextRef (step s e) = audioContextRef s
  /\ length (sessions (step s e)) = length (sessions s)
  /\ forall i ses,
       sessions (step s e) !! i = Some ses ->
       exists ses0, sessions s !! i = Some ses0
                    /\ ses_inCtx ses = ses_inCtx ses0
                    /\ ses_outCtx ses = ses_outCtx ses0.
Proof.
  intros He.
  assert (Hid : forall s' : State,
             contexts s' = contexts s -> inputCtxRef s' = inputCtxRef s ->
             audioContextRef s' = audioContextRef s -> sessions s' = sessions s ->
             contexts s' = contexts s
             /\ inputCtxRef s' = inputCtxRef s
             /\ audioContextRef s' = audioContextRef s
             /\ length (sessions s') = length (sessions s)
             /\ forall i ses,
                  sessions s' !! i = Some ses ->
                  exists ses0, sessions s !! i = Some ses0
                               /\ ses_inCtx ses = ses_inCtx ses0
                               /\ ses_outCtx ses = ses_outCtx ses0).
  { intros s' -> -> -> ->. repeat (split; [reflexivity|]).
    intros i ses H. now exists ses. }
  destruct e as [g|sid|sid inp|sid m t|sid|sid|src]; cbn [step].
  - now elim (He g).
  - apply (set_status_keeps sid Open s).
  - unfold onaudioprocess. destruct (encode _); now apply Hid.
  - destruct (sessions s !! sid) as [ses|]; [|now apply Hid].
    destruct (onmessage_keeps_contexts (ses_outCtx ses) m t s)
      as (H1 & H2 & H3 & H4). now apply Hid.
  - apply (set_status_keeps sid Closed s).
  - apply (set_status_keeps sid Closed s).
  - now apply Hid.
Qed.

(** X16. No event but the button touches an audio context: when the remote
    side closes the session or an error comes, the two contexts stay as
    they are, and the refs still name them. *)
Theorem only_toggle_touches_contexts (s : State) (e : Event) :
  (forall granted, e <> Toggle granted) ->
  contexts (step s e) = contexts s
  /\ inputCtxRef (step s e) = inputCtxRef s
  /\ audioContextRef (step s e) = audioContextRef s.
Proof.
  intros He. destruct (step_keeps_contexts s e He) as (H1 & H2 & H3 & _).
  now repeat split.
Qed.

Lemma only_toggle_touches_contexts_witness :
  let s := run initial [Toggle true; OnOpen 0] in
  contexts (step s (OnClose 0))
  = [ {| ctx_sampleRate := 16000; ctx_closed := false |};
      {| ctx_sampleRate := 24000; ctx_closed := false |} ]
  /\ isLiveActive (step s (OnClose 0)) = false.
Proof.
  intros s.
  destruct (only_toggle_touches_contexts s (OnClose 0)) as (H & _);
    [discriminate|].
  rewrite H. split; reflexivity.
Defined.

Lemma close_context_lookup ref s c ctx :
  contexts (close_context ref s) !! c = Some ctx ->
  exists ctx0,
    contexts s !! c = Some ctx0
    /\ ctx_sampleRate ctx = ctx_sampleRate ctx0
    /\ (ref = Some c /\ ctx_closed ctx = true
        \/ ref <> Some c /\ ctx = ctx0).
Proof.
  destruct ref as [r|]; cbn [close_context].
  - cbn [contexts set_contexts]. intros H.
    destruct (decide (r = c)) as [->|Hne].
    + rewrite list_lookup_alter_eq in H.
      destruct (contexts s !! c) as [ctx0|]; cbn in H; [|discriminate].
      injection H as <-. exists ctx0. cbn. repeat split. now left.
    + rewrite list_lookup_alter_ne in H by exact Hne.
      exists ctx. repeat split; [exact H|]. right. split; [congruence|reflexivity].
  - intros H. exists ctx. repeat split; [exact H|]. right. now split.
Qed.

Lemma close_context_keeps ref s :
  sessions (close_context ref s) = sessions s
  /\ inputCtxRef (close_context ref s) = inputCtxRef s
  /\ audioContextRef (close_context ref s) = audioContextRef s
  /\ length (contexts (close_context ref s)) = length (contexts s).
Proof.
  destruct ref; cbn [close_context]; repeat split. apply length_alter.
Qed.

(** The stop branch, context by context. *)
Lemma stop_lookup s c ctx :
  isLiveActive s = true ->
  forall g, contexts (toggleLiveReporting g s) !! c = Some ctx ->
  exists ctx0,
    contexts s !! c = Some ctx0
    /\ ctx_sampleRate ctx = ctx_sampleRate ctx0
    /\ ((inputCtxRef s = Some c \/ audioContextRef s = Some c)
        /\ ctx_closed ctx = true
        \/ inputCtxRef s <> Some c /\ audioContextRef s <> Some c /\ ctx = ctx0).
Proof.
  intros Ha g. unfold toggleLiveReporting. rewrite Ha. cbv zeta.
  set (s0 := set_isLiveActive false s).
  set (s1 := close_context (inputCtxRef s0) s0).
  destruct (close_context_keeps (inputCtxRef s0) s0) as (_ & _ & Hr & _).
  fold s1 in Hr. rewrite Hr.
  change (audioContextRef s0) with (audioContextRef s).
  intros H.
  destruct (close_context_lookup _ _ _ _ H) as (ctx1 & H1 & Hrate1 & Hc1).
  unfold s1 in H1.
  destruct (close_context_lookup _ _ _ _ H1) as (ctx0 & H0 & Hrate0 & Hc0).
  change (inputCtxRef s0) with (inputCtxRef s) in Hc0.
  change (contexts s0) with (contexts s) in H0.
  exists ctx0. split; [exact H0|]. split; [congruence|].
  destruct Hc1 as [[Hr1 Hcl]|[Hr1 ->]].
  - left. split; [now right | exact Hcl].
  - destruct Hc0 as [[Hr0 Hcl]|[Hr0 ->]].
    + left. split; [now left | exact Hcl].
    + right. now repeat split.
Qed.

Lemma stop_keeps s g :
  isLiveActive s = true ->
  sessions (toggleLiveReporting g s) = sessions s
  /\ inputCtxRef (toggleLiveReporting g s) = inputCtxRef s
  /\ audioContextRef (toggleLiveReporting g s) = audioContextRef s
  /\ length (contexts (toggleLiveReporting g s)) = length (contexts s).
Proof.
  intros Ha. unfold toggleLiveReporting. rewrite Ha. cbv zeta.
  set (s0 := set_isLiveActive false s).
  destruct (close_context_keeps (audioContextRef (close_context (inputCtxRef s0) s0))
              (close_context (inputCtxRef s0) s0)) as (-> & -> & -> & ->).
  destruct (close_context_keeps (inputCtxRef s0) s0) as (-> & -> & -> & ->).
  now repeat split.
Qed.

Lemma paired_step s e : paired s -> paired (step s e).
Proof.
  intros (Hlen & Hses & Hrate & Href).
  destruct e as [g|sid|sid inp|sid m t|sid|sid|src];
    try (match goal with
         | |- paired (step ?s ?e) =>
             destruct (step_keeps_contexts s e ltac:(discriminate))
               as (Hc & Hi & Ha & Hl & Hs)
         end;
         unfold paired; rewrite Hc, Hi, Ha, Hl;
         split; [exact Hlen|]; split; [|split; [exact Hrate | exact Href]];
         intros i ses H; destruct (Hs i ses H) as (ses0 & H0 & -> & ->);
         now apply Hses).
  cbn [step]. destruct (isLiveActive s) eqn:Eact.
  - destruct (stop_keeps s g Eact) as (Hs & Hi & Ha & Hl).
    unfold paired. rewrite Hs, Hi, Ha, Hl.
    split; [exact Hlen|]. split; [exact Hses|]. split; [|exact Href].
    intros c ctx H.
    destruct (stop_lookup s c ctx Eact g H) as (ctx0 & H0 & -> & _).
    now apply Hrate.
  - unfold toggleLiveReporting. rewrite Eact. destruct g.
    + cbv zeta. unfold paired.
      cbn [contexts sessions inputCtxRef audioContextRef set_contexts
           set_sessions set_inputCtxRef set_audioContextRef].
      rewrite !length_app. cbn [length].
      split; [lia|]. split; [|split].
      * intros i ses H.
        destruct (Nat.lt_ge_cases i (length (sessions s))) as [Hlt|Hge].
        -- rewrite lookup_app_l in H by exact Hlt. now apply Hses.
        -- assert (i = length (sessions s)) as ->.
           { apply lookup_lt_Some in H. rewrite length_app in H. cbn in H. lia. }
           rewrite list_lookup_middle in H by reflexivity.
           injection H as <-. cbn. lia.
      * intros c ctx H.
        destruct (Nat.lt_ge_cases c (length (contexts s))) as [Hlt|Hge].
        -- rewrite lookup_app_l in H by exact Hlt. now apply Hrate.
        -- rewrite lookup_app_r in H by exact Hge.
           assert (Heven : Nat.even (length (contexts s)) = true).
           { rewrite Hlen. apply Nat.even_spec. now exists (length (sessions s)). }
           destruct (c - length (contexts s))%nat as [|[|k]] eqn:Ek;
             cbn in H; [| |destruct k; discriminate H].
           ++ injection H as <-. cbn.
              replace c with (length (contexts s)) by lia. now rewrite Heven.
           ++ injection H as <-. cbn.
              replace c with (S (length (contexts s))) by lia.
              now rewrite Nat.even_succ, <- Nat.negb_even, Heven.
      * replace (length (sessions s) + 1)%nat with (S (length (sessions s))) by lia.
        split; f_equal; lia.
    + unfold paired. cbn [contexts sessions inputCtxRef audioContextRef set_alerts].
      exact (conj Hlen (conj Hses (conj Hrate Href))).
Qed.

Lemma paired_initial : paired initial.
Proof.
  unfold paired. cbn.
  split; [reflexivity|]. split; [intros ? ? Hl; discriminate Hl|].
  split; [intros ? ? Hl; discriminate Hl | split; reflexivity].
Qed.

(** X17. Over any run of the component there are two contexts for every
    session started, the input one (16 kHz) at twice the session's number and
    the output one (24 kHz) next to it; the refs are unset before the first
    session and name the contexts of the session started last after that. *)
Theorem sessions_own_their_contexts (es : list Event) :
  let s := run initial es in
  length (contexts s) = (2 * length (sessions s))%nat
  /\ (forall sid ses,
        sessions s !! sid = Some ses ->
        exists cin cout,
          ses_inCtx ses = (2 * sid)%nat
          /\ ses_outCtx ses = (2 * sid + 1)%nat
          /\ contexts s !! ses_inCtx ses = Some cin
          /\ ctx_sampleRate cin = 16000%positive
          /\ contexts s !! ses_outCtx ses = Some cout
          /\ ctx_sampleRate cout = 24000%positive)
  /\ match length (sessions s) with
     | O => inputCtxRef s = None /\ audioContextRef s = None
     | S n => inputCtxRef s = Some (2 * n)%nat
              /\ audioContextRef s = Some (2 * n + 1)%nat
     end.
Proof.
  cbv zeta.
  assert (H : paired (run initial es)).
  { apply run_invariant; [intros s e; apply paired_step | apply paired_initial]. }
  destruct H as (Hlen & Hses & Hrate & Href).
  split; [exact Hlen|]. split; [|exact Href].
  intros sid ses H. destruct (Hses sid ses H) as [Hi Ho].
  pose proof (lookup_lt_Some _ _ _ H) as Hlt.
  destruct (lookup_lt_is_Some_2 (contexts (run initial es)) (2 * sid))
    as [cin Hcin]; [lia|].
  destruct (lookup_lt_is_Some_2 (contexts (run initial es)) (2 * sid + 1))
    as [cout Hcout]; [lia|].
  exists cin, cout. rewrite Hi, Ho.
  repeat (split; [first [reflexivity | assumption]|]).
  split.
  - rewrite (Hrate _ _ Hcin).
    replace (Nat.even (2 * sid)) with true; [reflexivity|].
    symmetry. apply Nat.even_spec. now exists sid.
  - split; [exact Hcout|]. rewrite (Hrate _ _ Hcout).
    replace (Nat.even (2 * sid + 1)) with false; [reflexivity|].
    symmetry. rewrite Nat.add_1_r, Nat.even_succ, <- Nat.negb_even.
    replace (Nat.even (2 * sid)) with true; [reflexivity|].
    symmetry. apply Nat.even_spec. now exists sid.
Qed.

Lemma sessions_own_their_contexts_witness :
  let s := run initial [Toggle true; Toggle true; OnOpen 1] in
  exists ses cin cout,
    sessions s !! 1%nat = Some ses
    /\ ses_inCtx ses = 2%nat /\ ses_outCtx ses = 3%nat
    /\ contexts s !! ses_inCtx ses = Some cin
    /\ ctx_sampleRate cin = 16000%positive
    /\ contexts s !! ses_outCtx ses = Some cout
    /\ ctx_sampleRate cout = 24000%positive.
Proof.
  intros s.
  destruct (sessions_own_their_contexts [Toggle true; Toggle true; OnOpen 1])
    as (_ & H & _).
  destruct (H 1%nat {| ses_inCtx := 2; ses_outCtx := 3; ses_status := Open |}
              eq_refl) as (cin & cout & H1 & H2 & H3 & H4 & H5 & H6).
  eexists _, cin, cout. split; [reflexivity|]. now repeat split.
Defined.

(** X18. A stop request closes the two contexts of the session started
    last, and no other: the contexts of a session started before it are
    left as they were. *)
Theorem stop_closes_latest_contexts (es : list Event) (granted : bool)
    (n : nat) :
  let s := run initial es in
  isLiveActive s = true ->
  length (sessions s) = S n ->
  (exists cin cout,
     contexts (toggleLiveReporting granted s) !! (2 * n)%nat = Some cin
     /\ ctx_closed cin = true
     /\ contexts (toggleLiveReporting granted s) !! (2 * n + 1)%nat = Some cout
     /\ ctx_closed cout = true)
  /\ forall c, (c < 2 * n)%nat ->
       contexts (toggleLiveReporting granted s) !! c = contexts s !! c.
Proof.
  cbv zeta. set (s := run initial es). intros Hact Hn.
  assert (Hp : paired s).
  { apply run_invariant; [intros s0 e; apply paired_step | apply paired_initial]. }
  destruct Hp as (Hlen & _ & _ & Href). rewrite Hn in Href, Hlen.
  destruct Href as [Hin Hout].
  destruct (stop_keeps s granted Hact) as (_ & _ & _ & Hl).
  assert (Hat : forall c, (c < 2 * S n)%nat ->
            exists ctx, contexts (toggleLiveReporting granted s) !! c = Some ctx).
  { intros c Hc. apply lookup_lt_is_Some_2. lia. }
  split.
  - destruct (Hat (2 * n)%nat) as [cin Hcin]; [lia|].
    destruct (Hat (2 * n + 1)%nat) as [cout Hcout]; [lia|].
    exists cin, cout. split; [exact Hcin|]. split; [|split; [exact Hcout|]].
    + destruct (stop_lookup s _ _ Hact granted Hcin)
        as (_ & _ & _ & [[_ H]|(H & _)]); [exact H | congruence].
    + destruct (stop_lookup s _ _ Hact granted Hcout)
        as (_ & _ & _ & [[_ H]|(_ & H & _)]); [exact H | congruence].
  - intros c Hc. destruct (Hat c) as [ctx Hctx]; [lia|].
    destruct (stop_lookup s _ _ Hact granted Hctx)
      as (ctx0 & H0 & _ & [[[H|H] _]|(_ & _ & ->)]).
    + rewrite Hin in H. injection H as H. lia.
    + rewrite Hout in H. injection H as H. lia.
    + now rewrite Hctx, H0.
Qed.

Lemma stop_closes_latest_contexts_witness :
  let s := run initial [Toggle true; Toggle true; OnOpen 0; OnOpen 1] in
  (exists cin cout,
     contexts (toggleLiveReporting true s) !! 2%nat = Some cin
     /\ ctx_closed cin = true
     /\ contexts (toggleLiveReporting true s) !! 3%nat = Some cout
     /\ ctx_closed cout = true)
  /\ forall c, (c < 2)%nat ->
       contexts (toggleLiveReporting true s) !! c = contexts s !! c.
Proof.
  exact (stop_closes_latest_contexts
           [Toggle true; Toggle true; OnOpen 0; OnOpen 1] true 1
           eq_refl eq_refl).
Defined.

(** * The insight call, further *)

Lemma join_holds (sep x : JSString) (l : list JSString) :
  In x l -> exists pre post, join sep l = pre ++ x ++ post.
Proof.
  induction l as [|y l IH]; intros Hin; [contradiction|].
  destruct Hin as [->|Hin].
  - destruct l as [|z l].
    + exists [], []. cbn. now rewrite app_nil_r.
    + exists [], (sep ++ join sep (z :: l)). reflexivity.
  - destruct (IH Hin) as (pre & post & E).
    destruct l as [|z l]; [contradiction|].
    exists (y ++ sep ++ pre), post.
    change (join sep (y :: z :: l)) with (y ++ sep ++ join sep (z :: l)).
    rewrite E. now rewrite <- !app_assoc.
Qed.

Lemma app_reassoc {A} (a b c d e pre x post rest : list A) :
  a ++ b ++ c ++ d ++ e ++ (pre ++ x ++ post) ++ rest
  = (a ++ b ++ c ++ d ++ e ++ pre) ++ x ++ post ++ rest.
Proof. now rewrite <- !app_assoc. Qed.

(** X20. No report is left out of the request: the prompt holds, for every
    report, its line with the school's name, district and issues as they
    were entered. *)
Theorem prompt_holds_every_report (reports : list SchoolReport)
    (r : SchoolReport) :
  In r reports ->
  exists pre post,
    prompt reports
    = pre ++ (str "School: " ++ schoolName r ++ str ", District: "
                ++ district r ++ str ", Issues: " ++ issues r) ++ post.
Proof.
  intros Hin.
  destruct (join_holds (newline ++ str "---" ++ newline)
              (str "School: " ++ schoolName r ++ str ", District: "
                 ++ district r ++ str ", Issues: " ++ issues r)
              (map (fun r => str "School: " ++ schoolName r
                               ++ str ", District: " ++ district r
                               ++ str ", Issues: " ++ issues r) reports))
    as (pre & post & E).
  { apply in_map_iff. now exists r. }
  unfold prompt, reportsText. rewrite E. clear E.
  generalize (str "School: " ++ schoolName r ++ str ", District: "
                ++ district r ++ str ", Issues: " ++ issues r).
  intros line.
  eexists (_ ++ _ ++ _ ++ _ ++ _ ++ pre), (post ++ _).
  exact (app_reassoc _ _ _ _ _ pre line post _).
Qed.

Lemma prompt_holds_every_report_witness :
  let r := {| id := str "k3x9"; schoolName := str "GPS Chak 12";
              district := str "Multan"; province := str "Pakistan";
              issues := str "No boundary wall"; timestamp := 0 |} in
  let r' := {| id := str "p0q1"; schoolName := str "GGHS Kot";
               district := str "Unknown District"; province := str "Pakistan";
               issues := str "Roof leaks"; timestamp := 1 |} in
  exists pre post,
    prompt [r'; r]
    = pre ++ (str "School: " ++ schoolName r ++ str ", District: "
                ++ district r ++ str ", Issues: " ++ issues r) ++ post.
Proof.
  intros r r'. apply (prompt_holds_every_report [r'; r] r).
  right. left. reflexivity.
Defined.

(** X21. [generateStrategicInsight] never touches the reports; with no
    report it does nothing at all, whatever the remote side would answer;
    with reports it always ends with [isAnalyzing] unset; and when the
    request is rejected, [analyzeEducationData] rejects too (no fallback)
    and the insight shown before is kept. *)
Theorem generateStrategicInsight_outcomes
    (generateContent : JSString -> Settled (option JSString))
    (JSON_parse : JSString -> option JSON.value) (s : Insights) :
  let s' := generateStrategicInsight generateContent JSON_parse s in
  reports s' = reports s
  /\ (reports s = [] -> s' = s)
  /\ (reports s <> [] -> isAnalyzing s' = false)
  /\ (generateContent (prompt (reports s)) = Rejected ->
      analyzeEducationData generateContent JSON_parse (reports s) = Rejected
      /\ insight s' = insight s).
Proof.
  cbv zeta.
  assert (Hrej : generateContent (prompt (reports s)) = Rejected ->
                 analyzeEducationData generateContent JSON_parse (reports s)
                 = Rejected).
  { intros H. unfold analyzeEducationData. now rewrite H. }
  unfold generateStrategicInsight.
  destruct (reports s) as [|r l] eqn:E.
  - split; [exact E|]. split; [reflexivity|]. split; [congruence|].
    intros H. split; [now apply Hrej | reflexivity].
  - destruct (analyzeEducationData generateContent JSON_parse (r :: l))
      as [v|] eqn:Ea; cbn [reports insight isAnalyzing].
    + split; [reflexivity|]. split; [discriminate|]. split; [reflexivity|].
      intros H. discriminate (Hrej H).
    + split; [reflexivity|]. split; [discriminate|]. split; [reflexivity|].
      intros H. split; reflexivity.
Qed.

Lemma generateStrategicInsight_outcomes_witness :
  let s := {| reports := [ {| id := str "k3x9"; schoolName := str "GPS Chak 12";
                              district := str "Multan"; province := str "Pakistan";
                              issues := str "No boundary wall"; timestamp := 0 |} ];
              insight := Some fallback; isAnalyzing := true |} in
  analyzeEducationData (fun _ => Rejected) JSON.parse (reports s) = Rejected
  /\ insight (generateStrategicInsight (fun _ => Rejected) JSON.parse s)
     = insight s.
Proof.
  intros s.
  destruct (generateStrategicInsight_outcomes (fun _ => Rejected) JSON.parse s)
    as (_ & _ & _ & H).
  apply H. reflexivity.
Defined.

(** * The login gate and the forms *)

Module FormsFacts.
Import Forms.

Lemma forms_run_invariant (P : State -> Prop) :
  (forall s e, P s -> P (step s e)) ->
  forall es s, P s -> P (run s es).
Proof.
  intros Hstep es. induction es as [|e es IH]; intros s Hs; [exact Hs|].
  change (run s (e :: es)) with (run (step s e) es). apply IH, Hstep, Hs.
Qed.

Lemma signed_in_step s e : signed_in_as_admin s -> signed_in_as_admin (step s e).
Proof.
  unfold signed_in_as_admin, step. intros IH.
  destruct (isAuthenticated s) eqn:Ea.
  - destruct (IH eq_refl) as [Hf He].
    destruct e; cbn [shown]; rewrite ?Ea; cbn [negb andb];
      try (intros _; split; assumption);
      try (destruct (isLocating s); cbn [handle]; intros _; split; assumption);
      cbn [handle].
    + cbn. discriminate.
    + unfold handleSchoolSubmit.
      destruct (name (schoolForm s)), (school_issues (schoolForm s));
        cbn; intros _; split; assumption.
    + unfold handleFeedbackSubmit.
      destruct (form_message (feedbackForm s)); cbn; intros _; split; assumption.
  - destruct e; cbn [shown]; rewrite ?Ea; cbn [negb andb handle];
      try (cbn; rewrite ?Ea; discriminate).
    unfold handleLogin.
    destruct (decide _) as [[Hu Hp]|_]; cbn; [|rewrite Ea; discriminate].
    intros _. split; [|reflexivity].
    destruct (loginForm s) as [u p]. cbn in Hu, Hp. now subst.
Qed.

End FormsFacts.

(** X22. Whatever is typed and clicked, in any order, from the mounting of
    the component on: while [isAuthenticated] is set, the login form holds
    the user name [admin] and the password [password], and no login error is
    left. *)
Theorem signed_in_means_admin (es : list Forms.Event) :
  let s := Forms.run Forms.initial es in
  Forms.isAuthenticated s = true ->
  Forms.loginForm s
  = {| Forms.username := str "admin"; Forms.password := str "password" |}
  /\ Forms.loginError s = [].
Proof.
  cbv zeta. change (Forms.signed_in_as_admin (Forms.run Forms.initial es)).
  apply FormsFacts.forms_run_invariant.
  - intros s e. apply FormsFacts.signed_in_step.
  - intros H. discriminate H.
Qed.

Lemma signed_in_means_admin_witness :
  let s := Forms.run Forms.initial
             [Forms.TypeUsername (str "admin"); Forms.TypePassword (str "password");
              Forms.SubmitLogin; Forms.TypeUsername (str "guest");
              Forms.TypeSchoolName (str "GPS Chak 12")] in
  Forms.loginForm s
  = {| Forms.username := str "admin"; Forms.password := str "password" |}
  /\ Forms.loginError s = [].
Proof.
  apply (signed_in_means_admin
           [Forms.TypeUsername (str "admin"); Forms.TypePassword (str "password");
            Forms.SubmitLogin; Forms.TypeUsername (str "guest");
            Forms.TypeSchoolName (str "GPS Chak 12")]).
  vm_compute. reflexivity.
Defined.

Module FormsFacts2.
Import Forms.

Lemma or_else_nonempty a b : b <> [] -> or_else a b <> [].
Proof. destruct a; [auto | discriminate]. Qed.

(** What [handleSchoolSubmit] does to the list of reports. *)
Lemma handleSchoolSubmit_reports newId now s :
  reports (handleSchoolSubmit newId now s) = reports s
  \/ exists r, reports (handleSchoolSubmit newId now s) = r :: reports s
               /\ complete_report r.
Proof.
  unfold handleSchoolSubmit.
  destruct (name (schoolForm s)) as [|c n] eqn:En; [now left|].
  destruct (school_issues (schoolForm s)) as [|c' i] eqn:Ei; [now left|].
  right. eexists. split; [reflexivity|].
  unfold complete_report. cbn.
  split; [discriminate|]. split; [|split; [discriminate | reflexivity]].
  apply or_else_nonempty. discriminate.
Qed.

Lemma handleFeedbackSubmit_feedbacks newId now s :
  feedbacks (handleFeedbackSubmit newId now s) = feedbacks s
  \/ exists f, feedbacks (handleFeedbackSubmit newId now s) = f :: feedbacks s
               /\ complete_feedback f.
Proof.
  unfold handleFeedbackSubmit.
  destruct (form_message (feedbackForm s)) as [|c m] eqn:Em; [now left|].
  right. eexists. split; [reflexivity|].
  unfold complete_feedback. cbn. split; [|discriminate].
  apply or_else_nonempty. discriminate.
Qed.

Lemma step_reports s e :
  reports (step s e) = reports s
  \/ exists r, reports (step s e) = r :: reports s /\ complete_report r.
Proof.
  unfold step. destruct (shown s e); [|now left].
  destruct e; cbn [handle]; try (now left).
  - unfold handleLogin. destruct (decide _); now left.
  - apply handleSchoolSubmit_reports.
  - unfold handleFeedbackSubmit.
    destruct (form_message (feedbackForm s)); now left.
Qed.

Lemma step_feedbacks s e :
  feedbacks (step s e) = feedbacks s
  \/ exists f, feedbacks (step s e) = f :: feedbacks s /\ complete_feedback f.
Proof.
  unfold step. destruct (shown s e); [|now left].
  destruct e; cbn [handle]; try (now left).
  - unfold handleLogin. destruct (decide _); now left.
  - unfold handleSchoolSubmit.
    destruct (name (schoolForm s)), (school_issues (schoolForm s)); now left.
  - apply handleFeedbackSubmit_feedbacks.
Qed.

End FormsFacts2.

(** X23. Every report the dashboard holds, in any run from its mounting,
    has a school name, a district and issues that are not empty, and
    Pakistan as its province. *)
Theorem stored_reports_complete (es : list Forms.Event) (r : SchoolReport) :
  In r (Forms.reports (Forms.run Forms.initial es)) ->
  schoolName r <> [] /\ district r <> [] /\ issues r <> []
  /\ province r = str "Pakistan".
Proof.
  revert r.
  change ((fun s => forall r, In r (Forms.reports s) -> Forms.complete_report r)
            (Forms.run Forms.initial es)).
  apply FormsFacts.forms_run_invariant.
  - intros s e IH r Hr.
    destruct (FormsFacts2.step_reports s e) as [E|(r' & E & Hc)];
      rewrite E in Hr; [now apply IH|].
    destruct Hr as [<-|Hr]; [exact Hc | now apply IH].
  - intros r [].
Qed.

(** X24. Every feedback the dashboard holds, in any run from its mounting,
    has a role and a message that are not empty. *)
Theorem stored_feedback_complete (es : list Forms.Event) (f : Feedback.t) :
  In f (Forms.feedbacks (Forms.run Forms.initial es)) ->
  Feedback.role f <> [] /\ Feedback.message f <> [].
Proof.
  revert f.
  change ((fun s => forall f, In f (Forms.feedbacks s) -> Forms.complete_feedback f)
            (Forms.run Forms.initial es)).
  apply FormsFacts.forms_run_invariant.
  - intros s e IH f Hf.
    destruct (FormsFacts2.step_feedbacks s e) as [E|(f' & E & Hc)];
      rewrite E in Hf; [now apply IH|].
    destruct Hf as [<-|Hf]; [exact Hc | now apply IH].
  - intros f [].
Qed.

(** X25. Nothing stored is ever dropped, changed or put out of order, not
    even by signing out: over any run, from any state, the reports and the
    feedback there were are the tail of those there are, newer ones in
    front. *)
Theorem stored_records_kept (s : Forms.State) (es : list Forms.Event) :
  Forms.reports s `suffix_of` Forms.reports (Forms.run s es)
  /\ Forms.feedbacks s `suffix_of` Forms.feedbacks (Forms.run s es).
Proof.
  revert s. induction es as [|e es IH]; intros s; [split; reflexivity|].
  change (Forms.run s (e :: es)) with (Forms.run (Forms.step s e) es).
  destruct (IH (Forms.step s e)) as [Hr Hf]. split.
  - etransitivity; [|exact Hr].
    destruct (FormsFacts2.step_reports s e) as [->|(r & -> & _)];
      [reflexivity | now apply suffix_cons_r].
  - etransitivity; [|exact Hf].
    destruct (FormsFacts2.step_feedbacks s e) as [->|(f & -> & _)];
      [reflexivity | now apply suffix_cons_r].
Qed.

(** X26. Submitting a form twice in a row stores one record at most: the
    first submit empties the form, and the second finds nothing to store. *)
Theorem submit_twice_stores_once (id1 id2 : JSString) (now1 now2 : Z)
    (s : Forms.State) :
  Forms.handleSchoolSubmit id2 now2 (Forms.handleSchoolSubmit id1 now1 s)
  = Forms.handleSchoolSubmit id1 now1 s
  /\ Forms.handleFeedbackSubmit id2 now2 (Forms.handleFeedbackSubmit id1 now1 s)
     = Forms.handleFeedbackSubmit id1 now1 s.
Proof.
  split.
  - unfold Forms.handleSchoolSubmit.
    destruct (Forms.name (Forms.schoolForm s)) as [|c n] eqn:En;
      [cbn; now rewrite En|].
    destruct (Forms.school_issues (Forms.schoolForm s)) as [|c' i] eqn:Ei;
      [cbn; now rewrite En, Ei | reflexivity].
  - unfold Forms.handleFeedbackSubmit.
    destruct (Forms.form_message (Forms.feedbackForm s)) as [|c m] eqn:Em;
      [cbn; now rewrite Em | reflexivity].
Qed.

(** X27. Signing out empties the login form and keeps everything else, so
    the login form submitted straight after is refused, with the error
    shown; the reports and the feedback are still there. *)
Theorem sign_out_then_submit_is_refused (s : Forms.State) :
  let s' := Forms.handleLogin (Forms.handleLogout s) in
  Forms.isAuthenticated s' = false
  /\ Forms.loginError s'
     = str "Invalid credentials. Prototype mode: use admin/password"
  /\ Forms.reports s' = Forms.reports s
  /\ Forms.feedbacks s' = Forms.feedbacks s.
Proof.
  cbv zeta. unfold Forms.handleLogin.
  destruct (decide _) as [[Hu _]|_]; [discriminate Hu|].
  repeat split.
Qed.

Lemma stored_reports_complete_witness :
  let es := [Forms.TypeUsername (str "admin"); Forms.TypePassword (str "password");
             Forms.SubmitLogin; Forms.TypeSchoolName (str "GPS Chak 12");
             Forms.TypeIssues (str "No boundary wall");
             Forms.SubmitSchool (str "k3x9") 1700000000000] in
  let r := {| id := str "k3x9"; schoolName := str "GPS Chak 12";
              district := str "Unknown District"; province := str "Pakistan";
              issues := str "No boundary wall"; timestamp := 1700000000000 |} in
  schoolName r <> [] /\ district r <> [] /\ issues r <> []
  /\ province r = str "Pakistan".
Proof.
  intros es r. apply (stored_reports_complete es r).
  vm_compute. left. reflexivity.
Defined.

Lemma stored_feedback_complete_witness :
  let es := [Forms.TypeUsername (str "admin"); Forms.TypePassword (str "password");
             Forms.SubmitLogin; Forms.TypeMessage (str "The well is dry.");
             Forms.SubmitFeedback (str "a1b2") 1700000000000] in
  let f := {| Feedback.id := str "a1b2";
              Feedback.role := str "Community Member";
              Feedback.message := str "The well is dry.";
              Feedback.timestamp := 1700000000000 |} in
  Feedback.role f <> [] /\ Feedback.message f <> [].
Proof.
  intros es f. apply (stored_feedback_complete es f).
  vm_compute. left. reflexivity.
Defined.
